(** * Squared Euclidean distance matrices: [euclidean_numpy],
      [euclidean_numba1] and [euclidean_numba2]

    A shallow embedding of the three functions of
    [topics/python-hpc/tutorials/euclidean-distance-matrix-numba.jit.ipynb]
    and of the few NumPy operations they call.

    Array elements are real numbers ([R]) in the first embedding: it is
    about the functions over exact arithmetic.  A second embedding, in
    [Binary64], runs [euclidean_numpy] and [euclidean_numba1] on IEEE
    doubles, for what rounding and overflow change.  Everything that can go
    wrong in the Python code is kept:
    indexing outside an array is [IndexError], operands whose shapes do not
    fit are [ShapeMismatch] (NumPy's [ValueError]). *)

From Stdlib Require Import Reals Lra Lia List Arith PeanoNat Bool.
From Stdlib Require Floats.
Import ListNotations.

(** ** Errors *)

Inductive error : Type :=
| IndexError      (* an index outside the bounds of an array *)
| ShapeMismatch.  (* ValueError: shapes not aligned / not broadcastable *)

Definition result (A : Type) : Type := (error + A)%type.

Definition ret {A : Type} (a : A) : result A := inr a.

Definition raise {A : Type} (e : error) : result A := inl e.

Definition bind {A B : Type} (m : result A) (f : A -> result B) : result B :=
  match m with
  | inl e => inl e
  | inr a => f a
  end.

Notation "x <- m ;; k" := (bind m (fun x => k))
  (at level 61, m at next level, right associativity).

(** ** Arrays

    A two-dimensional array carries its shape, as [ndarray.shape] does: an
    array of shape (0, 5) and one of shape (0, 3) have the same (empty) list
    of rows.  A one-dimensional array is a list. *)

Record ndarray : Type := mk_ndarray {
  nrows : nat;
  ncols : nat;
  data  : list (list R)
}.

Definition shape (a : ndarray) : nat * nat := (nrows a, ncols a).

(** The rows agree with the shape. *)
Definition wf (a : ndarray) : Prop :=
  length (data a) = nrows a /\
  Forall (fun r => length r = ncols a) (data a).

(** [a[i]] on a two-dimensional array and [v[k]] on a one-dimensional
    one, for the non-negative indices a [range] produces.  A read outside
    the array is [IndexError], what the code raises as plain Python; compiled
    with [nopython=True] the bound is not checked and the read is
    undefined, so [IndexError] also stands for that. *)
Definition getrow (a : ndarray) (i : nat) : result (list R) :=
  match nth_error (data a) i with
  | Some r => ret r
  | None => raise IndexError
  end.

Definition getitem (v : list R) (k : nat) : result R :=
  match nth_error v k with
  | Some e => ret e
  | None => raise IndexError
  end.

(** [a[i][j]], read. *)
Definition entry (a : ndarray) (i j : nat) : result R :=
  r <- getrow a i ;; getitem r j.

Fixpoint set_nth {A : Type} (l : list A) (n : nat) (v : A) : list A :=
  match l, n with
  | [], _ => []
  | _ :: t, O => v :: t
  | h :: t, S n' => h :: set_nth t n' v
  end.

(** [a[i][j] = v]: the row [a[i]] is a view, the store goes into [a]. *)
Definition setitem (a : ndarray) (i j : nat) (v : R) : result ndarray :=
  r <- getrow a i ;;
  if j <? length r
  then ret (mk_ndarray (nrows a) (ncols a) (set_nth (data a) i (set_nth r j v)))
  else raise IndexError.

(** Unchecked read, used by the bulk operations below, which only read
    inside the shape. *)
Definition get (a : ndarray) (i j : nat) : R :=
  nth j (nth i (data a) []) 0%R.

Definition tabulate (n m : nat) (f : nat -> nat -> R) : ndarray :=
  mk_ndarray n m (map (fun i => map (f i) (seq 0 m)) (seq 0 n)).

(** ** The NumPy operations the notebook calls *)

(** [np.zeros((n, m))] *)
Definition zeros (n m : nat) : ndarray :=
  mk_ndarray n m (repeat (repeat 0%R m) n).

(** [v.sum()] *)
Definition sum (v : list R) : R := fold_right Rplus 0%R v.

(** Broadcasting of one dimension: equal extents, or one of them is 1. *)
Definition bdim (a b : nat) : result nat :=
  if a =? b then ret a
  else if a =? 1 then ret b
  else if b =? 1 then ret a
  else raise ShapeMismatch.

(** The index read along a dimension of extent [d] that may be stretched. *)
Definition bidx (d i : nat) : nat := if d =? 1 then 0 else i.

(** Element-wise binary operation on two-dimensional arrays. *)
Definition broadcast2 (op : R -> R -> R) (a b : ndarray) : result ndarray :=
  n <- bdim (nrows a) (nrows b) ;;
  m <- bdim (ncols a) (ncols b) ;;
  ret (tabulate n m (fun i j =>
         op (get a (bidx (nrows a) i) (bidx (ncols a) j))
            (get b (bidx (nrows b) i) (bidx (ncols b) j)))).

(** [a + b] and [a - b] *)
Definition add (a b : ndarray) : result ndarray := broadcast2 Rplus a b.

Definition subtract (a b : ndarray) : result ndarray := broadcast2 Rminus a b.

(** [c * a] for a scalar [c] *)
Definition scale (c : R) (a : ndarray) : ndarray :=
  tabulate (nrows a) (ncols a) (fun i j => (c * get a i j)%R).

(** [np.abs(a)] *)
Definition np_abs (a : ndarray) : ndarray :=
  tabulate (nrows a) (ncols a) (fun i j => Rabs (get a i j)).

(** [a.T] *)
Definition transpose (a : ndarray) : ndarray :=
  tabulate (ncols a) (nrows a) (fun i j => get a j i).

(** [v[:, np.newaxis]]: a vector as a column. *)
Definition newaxis (v : list R) : ndarray :=
  mk_ndarray (length v) 1 (map (fun e => [e]) v).

(** [np.einsum('ij,ij->i', a, b)]: row-wise inner products. *)
Definition einsum_ij_ij_i (a b : ndarray) : result (list R) :=
  n <- bdim (nrows a) (nrows b) ;;
  m <- bdim (ncols a) (ncols b) ;;
  ret (map (fun i =>
         sum (map (fun j =>
                (get a (bidx (nrows a) i) (bidx (ncols a) j) *
                 get b (bidx (nrows b) i) (bidx (ncols b) j))%R)
                (seq 0 m)))
         (seq 0 n)).

(** [np.dot(a, b)] on two-dimensional arrays. *)
Definition dot (a b : ndarray) : result ndarray :=
  if ncols a =? nrows b
  then ret (tabulate (nrows a) (ncols b) (fun i j =>
              sum (map (fun k => (get a i k * get b k j)%R)
                       (seq 0 (ncols a)))))
  else raise ShapeMismatch.

(** Element-wise binary operation on one-dimensional arrays. *)
Definition broadcast1 (op : R -> R -> R) (u v : list R) : result (list R) :=
  n <- bdim (length u) (length v) ;;
  ret (map (fun k => op (nth (bidx (length u) k) u 0%R)
                        (nth (bidx (length v) k) v 0%R))
           (seq 0 n)).

(** [u - v] and [u ** 2] on one-dimensional arrays *)
Definition subtract1 (u v : list R) : result (list R) := broadcast1 Rminus u v.

Definition square1 (u : list R) : list R := map (fun e => (e ^ 2)%R) u.

(** ** Loops

    [for i in range(n): body], started at [start], threading the variables
    the body assigns; an exception ends the loop.  Without
    [parallel=True] in the decorator, [numba.prange] is [range]. *)

Fixpoint for_from {S : Type} (start n : nat)
         (body : nat -> S -> result S) (s : S) : result S :=
  match n with
  | O => ret s
  | Datatypes.S n' => s' <- body start s ;; for_from (Datatypes.S start) n' body s'
  end.

Definition for_range {S : Type} (n : nat)
           (body : nat -> S -> result S) (s : S) : result S :=
  for_from 0 n body s.

(** ** The three functions of the notebook *)

Definition euclidean_numpy (x y : ndarray) : result ndarray :=
  xx <- einsum_ij_ij_i x x ;;
  let x2 := newaxis xx in
  yy <- einsum_ij_ij_i y y ;;
  let y2 := transpose (newaxis yy) in
  xy <- dot x (transpose y) ;;
  s <- add x2 y2 ;;
  d <- subtract s (scale 2 xy) ;;
  ret (np_abs d).

Definition euclidean_numba1 (x y : ndarray) : result ndarray :=
  let '(num_samples, num_feat) := shape x in
  let dist_matrix := zeros num_samples num_samples in
  for_range num_samples (fun i dist_matrix =>
    for_range num_samples (fun j dist_matrix =>
      r <- for_range num_feat (fun k r =>
             xi <- getrow x i ;;
             xik <- getitem xi k ;;
             yj <- getrow y j ;;
             yjk <- getitem yj k ;;
             ret (r + (xik - yjk) ^ 2)%R) 0%R ;;
      setitem dist_matrix i j r) dist_matrix) dist_matrix.

Definition euclidean_numba2 (x y : ndarray) : result ndarray :=
  let '(num_samples, num_feat) := shape x in
  let dist_matrix := zeros num_samples num_samples in
  for_range num_samples (fun i dist_matrix =>
    for_range num_samples (fun j dist_matrix =>
      xi <- getrow x i ;;
      yj <- getrow y j ;;
      d <- subtract1 xi yj ;;
      setitem dist_matrix i j (sum (square1 d))) dist_matrix) dist_matrix.

(** ** The loop nest the two loop functions share

    Both fill [dist_matrix] cell by cell, row after row; they differ in how
    a cell is computed. *)

Definition fill (n : nat) (cell : nat -> nat -> result R) : result ndarray :=
  for_range n (fun i dist_matrix =>
    for_range n (fun j dist_matrix =>
      r <- cell i j ;; setitem dist_matrix i j r) dist_matrix) (zeros n n).

(** The cell of [euclidean_numba1]: the loop over the features. *)
Definition cell_numba1 (x y : ndarray) (i j : nat) : result R :=
  for_range (ncols x) (fun k r =>
    xi <- getrow x i ;;
    xik <- getitem xi k ;;
    yj <- getrow y j ;;
    yjk <- getitem yj k ;;
    ret (r + (xik - yjk) ^ 2)%R) 0%R.

(** The cell of [euclidean_numba2]: subtract two rows, square, sum. *)
Definition cell_numba2 (x y : ndarray) (i j : nat) : result R :=
  xi <- getrow x i ;;
  yj <- getrow y j ;;
  d <- subtract1 xi yj ;;
  ret (sum (square1 d)).

(** What is known of [dist_matrix] once the cells before [(i, j)] are
    stored: the invariant of the nest. *)
Definition filled (n : nat) (f : nat -> nat -> R) (i j : nat) (dm : ndarray) : Prop :=
  wf dm /\ nrows dm = n /\ ncols dm = n /\
  forall a b, b < n -> a < i \/ (a = i /\ b < j) -> get dm a b = f a b.

(** Every stored value is non-negative: kept by the stores of the nest,
    whatever the inputs. *)
Definition nonneg (dm : ndarray) : Prop :=
  Forall (Forall (fun e => 0 <= e)%R) (data dm).

(** ** What the functions are meant to compute *)

(** [sum_k (x[i][k] - y[j][k])^2], over the columns of [x]. *)
Definition sq_euclid (x y : ndarray) (i j : nat) : R :=
  sum (map (fun k => ((get x i k - get y j k) ^ 2)%R) (seq 0 (ncols x))).

(** The squared norm of row [i] and the inner product of two rows, the
    terms of the expansion [(a - b)^2 = a^2 + b^2 - 2 a b]. *)
Definition sqnorm (x : ndarray) (i : nat) : R :=
  sum (map (fun k => (get x i k * get x i k)%R) (seq 0 (ncols x))).

Definition cross (x y : ndarray) (i j : nat) : R :=
  sum (map (fun k => (get x i k * get y j k)%R) (seq 0 (ncols x))).

(** The precondition of the contract: two arrays of the same feature
    dimension. *)
Definition valid_pair (x y : ndarray) : Prop :=
  wf x /\ wf y /\ ncols x = ncols y.

(** [y] cut down to its first [n] rows, [y[:n]]. *)
Definition truncate (n : nat) (y : ndarray) : ndarray :=
  mk_ndarray (Nat.min n (nrows y)) (ncols y) (firstn n (data y)).

(** ** Sample inputs *)

Definition of_rows (d : nat) (l : list (list R)) : ndarray :=
  mk_ndarray (length l) d l.

Definition X_pts : ndarray := of_rows 2 [[0; 0]; [3; 4]]%R.
Definition X_123 : ndarray := of_rows 3 [[1; 2; 3]]%R.
Definition Y_456 : ndarray := of_rows 3 [[4; 5; 6]]%R.
Definition X_1x1 : ndarray := of_rows 1 [[0]]%R.
Definition Y_2x1 : ndarray := of_rows 1 [[0]; [1]]%R.
Definition X_0x5 : ndarray := of_rows 5 [].
Definition Y_3x5 : ndarray := of_rows 5 (repeat (repeat 0%R 5) 3).
Definition X_1x4 : ndarray := of_rows 4 [[1; 2; 3; 4]]%R.
Definition Y_1x5 : ndarray := of_rows 5 [[1; 2; 3; 4; 9]]%R.
Definition X_1x0 : ndarray := of_rows 0 [[]].
Definition Y_0x0 : ndarray := of_rows 0 [].


(** ** The homework functions of the last cell

    [euclidean_loop0] and [euclidean_loop1] are the two loop functions
    without the decorator, with [range] for [numba.prange]. *)

Definition euclidean_loop0 (x y : ndarray) : result ndarray :=
  let '(num_samples, num_feat) := shape x in
  let dist_matrix := zeros num_samples num_samples in
  for_range num_samples (fun i dist_matrix =>
    for_range num_samples (fun j dist_matrix =>
      r <- for_range num_feat (fun k r =>
             xi <- getrow x i ;;
             xik <- getitem xi k ;;
             yj <- getrow y j ;;
             yjk <- getitem yj k ;;
             ret (r + (xik - yjk) ^ 2)%R) 0%R ;;
      setitem dist_matrix i j r) dist_matrix) dist_matrix.

Definition euclidean_loop1 (x y : ndarray) : result ndarray :=
  let '(num_samples, num_feat) := shape x in
  let dist_matrix := zeros num_samples num_samples in
  for_range num_samples (fun i dist_matrix =>
    for_range num_samples (fun j dist_matrix =>
      xi <- getrow x i ;;
      yj <- getrow y j ;;
      d <- subtract1 xi yj ;;
      setitem dist_matrix i j (sum (square1 d))) dist_matrix) dist_matrix.

(** [for i, a in enumerate(l): body], counting from [start]. *)
Fixpoint for_enumerate {St A : Type} (start : nat) (l : list A)
         (body : nat -> A -> St -> result St) (s : St) : result St :=
  match l with
  | [] => ret s
  | a :: t => s' <- body start a s ;; for_enumerate (Datatypes.S start) t body s'
  end.

(** [np.dot(u, v)] on one-dimensional arrays. *)
Definition dot1 (u v : list R) : result R :=
  if length u =? length v
  then ret (sum (map (fun k => (nth k u 0 * nth k v 0)%R) (seq 0 (length u))))
  else raise ShapeMismatch.

(** [euclidean_loop2] walks the rows of both arrays and stores into a
    matrix sized by [x] alone. *)
Definition euclidean_loop2 (x y : ndarray) : result ndarray :=
  let num_samples := nrows x in
  let dist_matrix := zeros num_samples num_samples in
  for_enumerate 0 (data x) (fun i xi dist_matrix =>
    for_enumerate 0 (data y) (fun j yj dist_matrix =>
      diff <- subtract1 xi yj ;;
      d <- dot1 diff diff ;;
      setitem dist_matrix i j d) dist_matrix) dist_matrix.

(** [[f(a) for a in l]], the first exception ending it. *)
Fixpoint comprehension {A B : Type} (f : A -> result B) (l : list A)
  : result (list B) :=
  match l with
  | [] => ret []
  | a :: t => b <- f a ;; bs <- comprehension f t ;; ret (b :: bs)
  end.

(** What [np.array] makes of a list of rows: the empty list is a
    one-dimensional array of shape (0,), a list of rows of one length a
    two-dimensional one. *)
Inductive array : Type :=
| Array1 (v : list R)
| Array2 (a : ndarray).

Definition np_array (l : list (list R)) : array :=
  match l with
  | [] => Array1 []
  | r :: _ => Array2 (mk_ndarray (length l) (length r) l)
  end.

(** [euclidean_loop3]: one row of the result per row of [y]. *)
Definition euclidean_loop3 (x y : ndarray) : result array :=
  dist_matrix <-
    comprehension (fun yj =>
      comprehension (fun xi =>
        d1 <- subtract1 xi yj ;;
        d2 <- subtract1 xi yj ;;
        dot1 d1 d2) (data x)) (data y) ;;
  ret (np_array dist_matrix).

(** ** The check of the notebook

    [np.abs(f(a, a) - g(a, a)).max()].  The maximum of an array without
    elements is one more [ValueError], kept apart from the two errors of the
    functions. *)

Inductive exception : Type :=
| Raised (e : error)
| ZeroSize.  (* zero-size array to reduction operation maximum *)

(** [a.max()] *)
Definition amax (a : ndarray) : exception + R :=
  match concat (data a) with
  | [] => inl ZeroSize
  | h :: t => inr (fold_left Rmax t h)
  end.

Definition max_abs_difference (f g : ndarray -> ndarray -> result ndarray)
           (a : ndarray) : exception + R :=
  match (p <- f a a ;; q <- g a a ;; d <- subtract p q ;; ret (np_abs d)) with
  | inl e => inl (Raised e)
  | inr m => amax m
  end.

(** The invariant of the nest of [euclidean_loop2]: [m] columns are
    written in each row, the others keep the zero of [np.zeros]. *)
Definition stored (n m : nat) (f : nat -> nat -> R) (i j : nat)
           (dm : ndarray) : Prop :=
  wf dm /\ nrows dm = n /\ ncols dm = n /\
  forall a b, a < n -> b < n ->
    get dm a b =
    if (b <? m) && ((a <? i) || ((a =? i) && (b <? j))) then f a b else 0%R.

(** A matrix sized by [x] whose first [m] columns hold the distances. *)
Definition partial_table (x y : ndarray) (m : nat) : ndarray :=
  tabulate (nrows x) (nrows x)
    (fun i j => if j <? m then sq_euclid x y i j else 0%R).

(** More sample inputs *)
Definition Y_1x2 : ndarray := of_rows 2 [[3; 4]]%R.
Definition Y_0x2 : ndarray := of_rows 2 [].
Definition Y_2x3 : ndarray := of_rows 3 [[1; 2; 3]; [7; 8; 9]]%R.
Definition Y_2x3' : ndarray := of_rows 3 [[1; 2; 3]; [0; 0; 0]]%R.

(** * The same code over binary64

    The arrays of the notebook hold IEEE doubles.  This second embedding
    of [euclidean_numpy] and [euclidean_numba1] computes with Rocq's
    primitive binary64 floats: rounding, overflow and NaN are those of the
    machine.  [x ** 2] is [x * x].  The loop of [euclidean_numba1] adds in
    the order of the source; inside the bulk reductions ([np.einsum],
    [np.dot]) the order is the library's, taken here from left to right:
    what is stated below about them either holds for any order or is about
    rows of one or two features, where the order makes no difference. *)

Module Binary64.

Import Floats.

Record ndarray : Type := mk_ndarray {
  nrows : nat;
  ncols : nat;
  data  : list (list float)
}.

Definition shape (a : ndarray) : nat * nat := (nrows a, ncols a).

Definition wf (a : ndarray) : Prop :=
  length (data a) = nrows a /\
  Forall (fun r => length r = ncols a) (data a).

Definition getrow (a : ndarray) (i : nat) : result (list float) :=
  match nth_error (data a) i with
  | Some r => ret r
  | None => raise IndexError
  end.

Definition getitem (v : list float) (k : nat) : result float :=
  match nth_error v k with
  | Some e => ret e
  | None => raise IndexError
  end.

Definition entry (a : ndarray) (i j : nat) : result float :=
  r <- getrow a i ;; getitem r j.

Definition setitem (a : ndarray) (i j : nat) (v : float) : result ndarray :=
  r <- getrow a i ;;
  if j <? length r
  then ret (mk_ndarray (nrows a) (ncols a) (set_nth (data a) i (set_nth r j v)))
  else raise IndexError.

Definition get (a : ndarray) (i j : nat) : float :=
  nth j (nth i (data a) []) 0%float.

Definition tabulate (n m : nat) (f : nat -> nat -> float) : ndarray :=
  mk_ndarray n m (map (fun i => map (f i) (seq 0 m)) (seq 0 n)).

Definition zeros (n m : nat) : ndarray :=
  mk_ndarray n m (repeat (repeat 0%float m) n).

Definition sum (v : list float) : float :=
  fold_left (fun r e => (r + e)%float) v 0%float.

Definition broadcast2 (op : float -> float -> float) (a b : ndarray)
  : result ndarray :=
  n <- bdim (nrows a) (nrows b) ;;
  m <- bdim (ncols a) (ncols b) ;;
  ret (tabulate n m (fun i j =>
         op (get a (bidx (nrows a) i) (bidx (ncols a) j))
            (get b (bidx (nrows b) i) (bidx (ncols b) j)))).

Definition add (a b : ndarray) : result ndarray :=
  broadcast2 (fun u v => (u + v)%float) a b.

Definition subtract (a b : ndarray) : result ndarray :=
  broadcast2 (fun u v => (u - v)%float) a b.

Definition scale (c : float) (a : ndarray) : ndarray :=
  tabulate (nrows a) (ncols a) (fun i j => (c * get a i j)%float).

Definition np_abs (a : ndarray) : ndarray :=
  tabulate (nrows a) (ncols a) (fun i j => PrimFloat.abs (get a i j)).

Definition transpose (a : ndarray) : ndarray :=
  tabulate (ncols a) (nrows a) (fun i j => get a j i).

Definition newaxis (v : list float) : ndarray :=
  mk_ndarray (length v) 1 (map (fun e => [e]) v).

Definition einsum_ij_ij_i (a b : ndarray) : result (list float) :=
  n <- bdim (nrows a) (nrows b) ;;
  m <- bdim (ncols a) (ncols b) ;;
  ret (map (fun i =>
         sum (map (fun j =>
                (get a (bidx (nrows a) i) (bidx (ncols a) j) *
                 get b (bidx (nrows b) i) (bidx (ncols b) j))%float)
                (seq 0 m)))
         (seq 0 n)).

Definition dot (a b : ndarray) : result ndarray :=
  if ncols a =? nrows b
  then ret (tabulate (nrows a) (ncols b) (fun i j =>
              sum (map (fun k => (get a i k * get b k j)%float)
                       (seq 0 (ncols a)))))
  else raise ShapeMismatch.

Definition euclidean_numpy (x y : ndarray) : result ndarray :=
  xx <- einsum_ij_ij_i x x ;;
  let x2 := newaxis xx in
  yy <- einsum_ij_ij_i y y ;;
  let y2 := transpose (newaxis yy) in
  xy <- dot x (transpose y) ;;
  s <- add x2 y2 ;;
  d <- subtract s (scale 2%float xy) ;;
  ret (np_abs d).

Definition euclidean_numba1 (x y : ndarray) : result ndarray :=
  let '(num_samples, num_feat) := shape x in
  let dist_matrix := zeros num_samples num_samples in
  for_range num_samples (fun i dist_matrix =>
    for_range num_samples (fun j dist_matrix =>
      r <- for_range num_feat (fun k r =>
             xi <- getrow x i ;;
             xik <- getitem xi k ;;
             yj <- getrow y j ;;
             yjk <- getitem yj k ;;
             ret (r + (xik - yjk) * (xik - yjk))%float) 0%float ;;
      setitem dist_matrix i j r) dist_matrix) dist_matrix.



(** Modelled from the spec: the tolerance of the contract, [a] and [b]
    agree within 1e-6 absolute or within 1e-9 relative to the larger
    magnitude. *)
#[warnings="-inexact-float"]
Definition close (a b : float) : bool :=
  let d := PrimFloat.abs (a - b) in
  let m := if (PrimFloat.abs a <? PrimFloat.abs b)%float
           then PrimFloat.abs b else PrimFloat.abs a in
  ((d <=? 1e-6) || (d <=? 1e-9 * m))%float.

Definition of_rows (d : nat) (l : list (list float)) : ndarray :=
  mk_ndarray (length l) d l.

(** Sample inputs: two rows that differ in a small feature beside a large
    one, and a row whose square overflows. *)
Definition X_big : ndarray := of_rows 2 [[1e8; 1]]%float.
Definition Y_big : ndarray := of_rows 2 [[1e8; 0]]%float.
#[warnings="-inexact-float"]
Definition X_huge : ndarray := of_rows 1 [[1e200]]%float.
Definition X_34 : ndarray := of_rows 2 [[0; 0]; [3; 4]]%float.

End Binary64.

(** * Properties *)

(** ** The error monad and the loops *)

Lemma bind_ret {A B : Type} (a : A) (f : A -> result B) :
  (x <- ret a ;; f x) = f a.
Proof. reflexivity. Qed.

Lemma bind_inr_inv {A B : Type} (m : result A) (f : A -> result B) (b : B) :
  (x <- m ;; f x) = inr b -> exists a, m = inr a /\ f a = inr b.
Proof.
  destruct m as [e | a]; simpl; intros H.
  - discriminate.
  - exists a. split; [reflexivity | exact H].
Qed.

Section Loops.

Context {S : Type}.
Variable body : nat -> S -> result S.

(** A loop of [a + b] rounds is a loop of [a] rounds, then one of [b]. *)
Lemma for_from_app (a b start : nat) (s : S) :
  for_from start (a + b) body s =
  (s' <- for_from start a body s ;; for_from (start + a) b body s').
Proof.
  revert start s. induction a as [| a IH]; intros start s.
  - simpl. rewrite Nat.add_0_r. reflexivity.
  - simpl. destruct (body start s) as [e | s1]; simpl.
    + reflexivity.
    + rewrite IH. replace (Datatypes.S start + a) with (start + Datatypes.S a) by lia.
      reflexivity.
Qed.

(** Total correctness: an invariant every round re-establishes, each
    round returning normally. *)
Lemma for_from_inv (P : nat -> S -> Prop) (n start : nat) (s : S) :
  P start s ->
  (forall k t, start <= k < start + n -> P k t ->
               exists t', body k t = inr t' /\ P (Datatypes.S k) t') ->
  exists s', for_from start n body s = inr s' /\ P (start + n) s'.
Proof.
  revert start s. induction n as [| n IH]; intros start s H0 Hstep.
  - exists s. rewrite Nat.add_0_r. split; [reflexivity | exact H0].
  - destruct (Hstep start s) as [s1 [E1 P1]]; [lia | exact H0 |].
    destruct (IH (Datatypes.S start) s1 P1) as [s2 [E2 P2]].
    + intros k t Hk Pk. apply Hstep; [lia | exact Pk].
    + exists s2. simpl. rewrite E1. simpl. split; [exact E2 |].
      replace (start + Datatypes.S n) with (Datatypes.S start + n) by lia.
      exact P2.
Qed.

(** Partial correctness: whatever the loop returns satisfies an
    invariant kept by the rounds that return. *)
Lemma for_from_partial (P : S -> Prop) (n start : nat) (s s' : S) :
  P s ->
  (forall k t t', P t -> body k t = inr t' -> P t') ->
  for_from start n body s = inr s' -> P s'.
Proof.
  revert start s. induction n as [| n IH]; intros start s H0 Hstep E.
  - simpl in E. injection E as <-. exact H0.
  - simpl in E. apply bind_inr_inv in E. destruct E as [s1 [E1 E2]].
    apply (IH (Datatypes.S start) s1); [| exact Hstep | exact E2].
    apply (Hstep start s s1 H0 E1).
Qed.

(** An exception no round raises is not raised by the loop. *)
Lemma for_from_never (e : error) (n start : nat) (s : S) :
  (forall k t, body k t <> inl e) ->
  for_from start n body s <> inl e.
Proof.
  intros Hb. revert start s. induction n as [| n IH]; intros start s.
  - simpl. discriminate.
  - simpl. pose proof (Hb start s) as H.
    destruct (body start s) as [e' | s1]; simpl.
    + exact H.
    + apply IH.
Qed.

(** The first round that raises ends the loop with its exception. *)
Lemma for_from_fail (P : nat -> S -> Prop) (e : error) (n start stop : nat) (s : S) :
  start <= stop < start + n ->
  P start s ->
  (forall k t, start <= k < stop -> P k t ->
               exists t', body k t = inr t' /\ P (Datatypes.S k) t') ->
  (forall t, P stop t -> body stop t = inl e) ->
  for_from start n body s = inl e.
Proof.
  intros Hstop H0 Hstep Hfail.
  replace n with ((stop - start) + Datatypes.S (n - Datatypes.S (stop - start))) by lia.
  rewrite for_from_app.
  destruct (for_from_inv P (stop - start) start s H0) as [s1 [E1 P1]].
  - intros k t Hk Pk. apply Hstep; [lia | exact Pk].
  - rewrite E1. simpl.
    replace (start + (stop - start)) with stop in * by lia.
    rewrite (Hfail s1 P1). reflexivity.
Qed.

End Loops.

(** A loop whose rounds only add to an accumulator is a sum. *)
Lemma for_from_sum (g : nat -> R) (n start : nat) (r : R) :
  for_from start n (fun k r => ret (r + g k)%R) r =
  ret (r + sum (map g (seq start n)))%R.
Proof.
  revert start r. induction n as [| n IH]; intros start r.
  - simpl. unfold ret. f_equal. lra.
  - simpl. rewrite IH. unfold ret. f_equal. lra.
Qed.

(** Two bodies that agree on the rounds run give the same loop. *)
Lemma for_from_ext {S : Type} (b1 b2 : nat -> S -> result S) (n start : nat) (s : S) :
  (forall k t, start <= k < start + n -> b1 k t = b2 k t) ->
  for_from start n b1 s = for_from start n b2 s.
Proof.
  revert start s. induction n as [| n IH]; intros start s H.
  - reflexivity.
  - simpl. rewrite H by lia. destruct (b2 start s) as [e | s1]; simpl.
    + reflexivity.
    + apply IH. intros k t Hk. apply H. lia.
Qed.

(** ** Arrays as tables *)

Lemma nth_map_seq {A : Type} (f : nat -> A) (d : A) (n i : nat) :
  i < n -> nth i (map f (seq 0 n)) d = f i.
Proof.
  intros H. rewrite (nth_indep _ d (f 0)) by (rewrite length_map, length_seq; exact H).
  rewrite (map_nth f). rewrite seq_nth by exact H. reflexivity.
Qed.

Lemma nth_error_map_seq {A : Type} (f : nat -> A) (n i : nat) :
  i < n -> nth_error (map f (seq 0 n)) i = Some (f i).
Proof.
  intros H. rewrite nth_error_map, nth_error_seq.
  destruct (Nat.ltb_spec i n); [reflexivity | lia].
Qed.

Lemma get_tabulate (n m : nat) (f : nat -> nat -> R) (i j : nat) :
  i < n -> j < m -> get (tabulate n m f) i j = f i j.
Proof.
  intros Hi Hj. unfold get, tabulate. simpl.
  rewrite (nth_map_seq (fun i => map (f i) (seq 0 m))) by exact Hi.
  apply nth_map_seq. exact Hj.
Qed.

Lemma wf_tabulate (n m : nat) (f : nat -> nat -> R) : wf (tabulate n m f).
Proof.
  split; simpl.
  - rewrite length_map, length_seq. reflexivity.
  - apply Forall_forall. intros r Hr. apply in_map_iff in Hr.
    destruct Hr as [i [<- _]]. rewrite length_map, length_seq. reflexivity.
Qed.

Lemma tabulate_ext (n m : nat) (f g : nat -> nat -> R) :
  (forall i j, i < n -> j < m -> f i j = g i j) ->
  tabulate n m f = tabulate n m g.
Proof.
  intros H. unfold tabulate. f_equal.
  apply map_ext_in. intros i Hi. apply in_seq in Hi.
  apply map_ext_in. intros j Hj. apply in_seq in Hj.
  apply H; lia.
Qed.

Lemma wf_row_length (a : ndarray) (i : nat) :
  wf a -> i < nrows a -> length (nth i (data a) []) = ncols a.
Proof.
  intros [Hl Hr] Hi. rewrite Forall_forall in Hr. apply Hr.
  apply nth_In. lia.
Qed.

(** A well-formed array is the table of its entries. *)
Lemma wf_eq_tabulate (a : ndarray) :
  wf a -> a = tabulate (nrows a) (ncols a) (get a).
Proof.
  intros Hwf. destruct a as [n m d]. unfold tabulate. simpl. f_equal.
  pose proof Hwf as [Hl Hr]. simpl in Hl, Hr.
  apply (nth_ext _ _ [] []).
  - rewrite length_map, length_seq. exact Hl.
  - intros i Hi. rewrite Hl in Hi.
    rewrite (nth_map_seq (fun i => map (get _ i) (seq 0 m))) by exact Hi.
    apply (nth_ext _ _ 0%R 0%R).
    + rewrite length_map, length_seq.
      apply (wf_row_length (mk_ndarray n m d) i Hwf Hi).
    + intros j Hj.
      pose proof (wf_row_length (mk_ndarray n m d) i Hwf Hi) as Hlen.
      simpl in Hlen. rewrite Hlen in Hj.
      rewrite nth_map_seq by exact Hj. reflexivity.
Qed.

Lemma wf_eq_table (a : ndarray) (f : nat -> nat -> R) :
  wf a ->
  (forall i j, i < nrows a -> j < ncols a -> get a i j = f i j) ->
  a = tabulate (nrows a) (ncols a) f.
Proof.
  intros Hwf H. rewrite (wf_eq_tabulate a Hwf) at 1.
  apply tabulate_ext. exact H.
Qed.

Lemma getrow_wf (a : ndarray) (i : nat) :
  wf a -> i < nrows a -> getrow a i = ret (nth i (data a) []).
Proof.
  intros [Hl _] Hi. unfold getrow.
  rewrite (nth_error_nth' _ []) by lia. reflexivity.
Qed.

Lemma getrow_out (a : ndarray) (i : nat) :
  wf a -> nrows a <= i -> getrow a i = raise IndexError.
Proof.
  intros [Hl _] Hi. unfold getrow.
  rewrite (proj2 (nth_error_None (data a) i)) by lia. reflexivity.
Qed.

Lemma getitem_in (v : list R) (k : nat) :
  k < length v -> getitem v k = ret (nth k v 0%R).
Proof.
  intros Hk. unfold getitem. rewrite (nth_error_nth' _ 0%R) by exact Hk.
  reflexivity.
Qed.

Lemma getitem_out (v : list R) (k : nat) :
  length v <= k -> getitem v k = raise IndexError.
Proof.
  intros Hk. unfold getitem.
  rewrite (proj2 (nth_error_None v k)) by exact Hk. reflexivity.
Qed.

Lemma entry_wf (a : ndarray) (i j : nat) :
  wf a -> i < nrows a -> j < ncols a -> entry a i j = ret (get a i j).
Proof.
  intros Hwf Hi Hj. unfold entry. rewrite getrow_wf by assumption. simpl.
  rewrite getitem_in by (rewrite wf_row_length; assumption). reflexivity.
Qed.

Lemma entry_tabulate (n m : nat) (f : nat -> nat -> R) (i j : nat) :
  i < n -> j < m -> entry (tabulate n m f) i j = ret (f i j).
Proof.
  intros Hi Hj. rewrite entry_wf; [| apply wf_tabulate | exact Hi | exact Hj].
  rewrite get_tabulate by assumption. reflexivity.
Qed.

(** Reading an entry that exists gives a value of the table. *)
Lemma entry_tabulate_inv (n m : nat) (f : nat -> nat -> R) (i j : nat) (v : R) :
  entry (tabulate n m f) i j = inr v -> i < n /\ j < m /\ v = f i j.
Proof.
  intros H. destruct (Nat.lt_ge_cases i n) as [Hi | Hi].
  - destruct (Nat.lt_ge_cases j m) as [Hj | Hj].
    + rewrite entry_tabulate in H by assumption. injection H as <-. auto.
    + unfold entry in H. rewrite getrow_wf in H by (apply wf_tabulate || exact Hi).
      simpl in H. rewrite getitem_out in H; [discriminate |].
      rewrite (nth_map_seq (fun i => map (f i) (seq 0 m))) by exact Hi.
      rewrite length_map, length_seq. exact Hj.
  - unfold entry in H. rewrite getrow_out in H; [discriminate | apply wf_tabulate | exact Hi].
Qed.

Lemma zeros_tabulate (n m : nat) : zeros n m = tabulate n m (fun _ _ => 0%R).
Proof.
  unfold zeros, tabulate. f_equal.
  assert (Hrow : forall k s, map (fun _ : nat => 0%R) (seq s k) = repeat 0%R k).
  { induction k as [| k IH]; intros s; simpl; [reflexivity | rewrite IH; reflexivity]. }
  assert (Hall : forall k s, map (fun _ : nat => map (fun _ : nat => 0%R) (seq 0 m)) (seq s k)
                             = repeat (repeat 0%R m) k).
  { induction k as [| k IH]; intros s; simpl; [reflexivity |].
    rewrite IH, Hrow. reflexivity. }
  symmetry. apply Hall.
Qed.

(** ** Stores *)

Lemma length_set_nth {A : Type} (l : list A) (n : nat) (v : A) :
  length (set_nth l n v) = length l.
Proof.
  revert n. induction l as [| h t IH]; intros [| n]; simpl; try reflexivity.
  rewrite IH. reflexivity.
Qed.

Lemma nth_set_nth {A : Type} (l : list A) (n k : nat) (v d : A) :
  n < length l ->
  nth k (set_nth l n v) d = if k =? n then v else nth k l d.
Proof.
  revert n k. induction l as [| h t IH]; intros n k Hn; simpl in Hn; [lia |].
  destruct n as [| n]; destruct k as [| k]; simpl; try reflexivity.
  apply IH. lia.
Qed.

Lemma Forall_set_nth {A : Type} (P : A -> Prop) (l : list A) (n : nat) (v : A) :
  Forall P l -> P v -> Forall P (set_nth l n v).
Proof.
  intros Hl Hv. revert n. induction Hl as [| h t Hh Ht IH]; intros [| n]; simpl;
    constructor; auto.
Qed.

(** A store inside the shape succeeds, keeps the shape and changes the one
    entry. *)
Lemma setitem_wf (a : ndarray) (i j : nat) (v : R) :
  wf a -> i < nrows a -> j < ncols a ->
  exists a', setitem a i j v = inr a' /\ wf a' /\
             nrows a' = nrows a /\ ncols a' = ncols a /\
             forall i' j', get a' i' j' =
                           if (i' =? i) && (j' =? j) then v else get a i' j'.
Proof.
  intros Hwf Hi Hj. pose proof Hwf as [Hl Hr].
  pose proof (wf_row_length a i Hwf Hi) as Hlen.
  unfold setitem. rewrite getrow_wf by assumption. simpl.
  destruct (Nat.ltb_spec j (length (nth i (data a) []))) as [_ | Hge]; [| lia].
  eexists. split; [reflexivity |]. split; [| split; [reflexivity | split; [reflexivity |]]].
  - split; simpl.
    + rewrite length_set_nth. exact Hl.
    + apply Forall_set_nth; [exact Hr |]. rewrite length_set_nth. exact Hlen.
  - intros i' j'. unfold get. simpl.
    rewrite nth_set_nth by lia.
    destruct (Nat.eqb_spec i' i) as [-> | Hne]; simpl.
    + rewrite nth_set_nth by lia. reflexivity.
    + reflexivity.
Qed.

(** ** The loop nest *)

Lemma numba1_fill (x y : ndarray) :
  euclidean_numba1 x y = fill (nrows x) (cell_numba1 x y).
Proof. reflexivity. Qed.

Lemma numba2_fill (x y : ndarray) :
  euclidean_numba2 x y = fill (nrows x) (cell_numba2 x y).
Proof.
  unfold euclidean_numba2, fill, for_range, shape.
  apply for_from_ext. intros i dm _.
  apply for_from_ext. intros j dm' _.
  unfold cell_numba2.
  destruct (getrow x i) as [e | xi]; simpl; [reflexivity |].
  destruct (getrow y j) as [e | yj]; simpl; [reflexivity |].
  destruct (subtract1 xi yj) as [e | d]; reflexivity.
Qed.

Section Fill.

Variable n : nat.
Variable cell : nat -> nat -> result R.

Lemma filled_zeros (f : nat -> nat -> R) : filled n f 0 0 (zeros n n).
Proof.
  rewrite zeros_tabulate. split; [apply wf_tabulate |].
  split; [reflexivity |]. split; [reflexivity |].
  intros a b _ [H | [_ H]]; lia.
Qed.

Lemma filled_next_row (f : nat -> nat -> R) (i : nat) (dm : ndarray) :
  filled n f i n dm -> filled n f (Datatypes.S i) 0 dm.
Proof.
  intros (Hwf & Hr & Hc & Hget). repeat split; try assumption; try apply Hwf.
  intros a b Hb [H | [_ H]]; [| lia].
  apply Hget; [exact Hb |]. destruct (Nat.eq_dec a i); [right | left]; lia.
Qed.

Lemma filled_store (f : nat -> nat -> R) (i j : nat) (dm : ndarray) :
  i < n -> j < n -> filled n f i j dm ->
  exists dm', setitem dm i j (f i j) = inr dm' /\ filled n f i (Datatypes.S j) dm'.
Proof.
  intros Hi Hj (Hwf & Hr & Hc & Hget).
  destruct (setitem_wf dm i j (f i j) Hwf) as (dm' & E & Hwf' & Hr' & Hc' & Hget');
    [lia | lia |].
  exists dm'. split; [exact E |].
  split; [exact Hwf' |]. split; [lia |]. split; [lia |].
  intros a b Hb H. rewrite Hget'.
  destruct (Nat.eqb_spec a i) as [-> | Ha]; simpl.
  - destruct (Nat.eqb_spec b j) as [-> | Hbj]; [reflexivity |].
    apply Hget; [exact Hb |]. lia.
  - apply Hget; [exact Hb |]. lia.
Qed.

(** One row of the nest, all of whose cells are computed. *)
Lemma fill_row (f : nat -> nat -> R) (i : nat) (dm : ndarray) :
  i < n ->
  (forall j, j < n -> cell i j = ret (f i j)) ->
  filled n f i 0 dm ->
  exists dm',
    for_range n (fun j dm => r <- cell i j ;; setitem dm i j r) dm = inr dm' /\
    filled n f (Datatypes.S i) 0 dm'.
Proof.
  intros Hi Hcell H0.
  destruct (for_from_inv (fun j dm => r <- cell i j ;; setitem dm i j r)
              (fun j dm => filled n f i j dm) n 0 dm H0) as [dm' [E P]].
  - intros j t Hj Pj. rewrite Hcell by lia. simpl.
    apply filled_store; [exact Hi | lia | exact Pj].
  - exists dm'. split; [exact E |]. apply filled_next_row. exact P.
Qed.

(** When every cell is computed, the nest returns the table of the
    cells. *)
Lemma fill_ok (f : nat -> nat -> R) :
  (forall i j, i < n -> j < n -> cell i j = ret (f i j)) ->
  fill n cell = inr (tabulate n n f).
Proof.
  intros Hcell. unfold fill, for_range.
  destruct (for_from_inv
              (fun i dm => for_from 0 n (fun j dm => r <- cell i j ;; setitem dm i j r) dm)
              (fun i dm => filled n f i 0 dm) n 0 (zeros n n) (filled_zeros f))
    as [out [E P]].
  - intros i t Hi Pi. apply fill_row; [lia | | exact Pi].
    intros j Hj. apply Hcell; lia.
  - rewrite E. f_equal. destruct P as (Hwf & Hr & Hc & Hget).
    rewrite (wf_eq_table out f Hwf).
    + rewrite Hr, Hc. reflexivity.
    + intros i j Hi Hj. apply Hget; lia.
Qed.

(** When the cells of the first row are computed up to one that raises,
    the nest raises that exception. *)
Lemma fill_fail (f : nat -> nat -> R) (e : error) (j0 : nat) :
  j0 < n ->
  (forall j, j < j0 -> cell 0 j = ret (f 0 j)) ->
  cell 0 j0 = inl e ->
  fill n cell = inl e.
Proof.
  intros Hj0 Hbefore Hfail. unfold fill, for_range.
  apply (for_from_fail _ (fun i dm => filled n f 0 0 dm) e n 0 0).
  - lia.
  - apply filled_zeros.
  - intros k t Hk. lia.
  - intros t Pt.
    apply (for_from_fail _ (fun j dm => filled n f 0 j dm) e n 0 j0).
    + lia.
    + exact Pt.
    + intros j u Hj Pj. rewrite Hbefore by lia. simpl.
      apply filled_store; [lia | lia | exact Pj].
    + intros u _. rewrite Hfail. reflexivity.
Qed.

(** An exception neither a cell nor a store raises is not raised. *)
Lemma fill_never :
  (forall i j, cell i j <> inl ShapeMismatch) ->
  fill n cell <> inl ShapeMismatch.
Proof.
  intros Hcell. unfold fill, for_range.
  apply for_from_never. intros i dm.
  apply for_from_never. intros j dm'.
  pose proof (Hcell i j) as Hc.
  destruct (cell i j) as [e | r]; simpl.
  - intros H. apply Hc. injection H as ->. reflexivity.
  - unfold setitem, getrow.
    destruct (nth_error (data dm') i); simpl; [| discriminate].
    destruct (j <? length l); discriminate.
Qed.

End Fill.

(** ** The cells *)

Lemma bdim_refl (a : nat) : bdim a a = ret a.
Proof. unfold bdim. rewrite Nat.eqb_refl. reflexivity. Qed.

Lemma bdim_1_r (a : nat) : bdim a 1 = ret a.
Proof.
  unfold bdim. destruct (Nat.eqb_spec a 1) as [-> | H]; reflexivity.
Qed.

Lemma bdim_1_l (b : nat) : bdim 1 b = ret b.
Proof.
  unfold bdim. destruct (Nat.eqb_spec 1 b) as [<- | H]; reflexivity.
Qed.

Lemma bidx_lt (d i : nat) : i < d -> bidx d i = i.
Proof.
  intros H. unfold bidx. destruct (Nat.eqb_spec d 1); [lia | reflexivity].
Qed.

Lemma sum_nonneg (v : list R) : Forall (fun e => 0 <= e)%R v -> (0 <= sum v)%R.
Proof.
  induction 1 as [| e t He Ht IH]; simpl; lra.
Qed.

Lemma sum_squares_nonneg {A : Type} (g : A -> R) (l : list A) :
  (0 <= sum (map (fun a => (g a) ^ 2) l))%R.
Proof.
  apply sum_nonneg. apply Forall_forall. intros e He.
  apply in_map_iff in He. destruct He as [a [<- _]].
  apply pow2_ge_0.
Qed.

Lemma sq_euclid_nonneg (x y : ndarray) (i j : nat) : (0 <= sq_euclid x y i j)%R.
Proof.
  unfold sq_euclid.
  apply (sum_squares_nonneg (fun k => (get x i k - get y j k)%R)).
Qed.

(** The feature loop of [euclidean_numba1], all reads inside the arrays. *)
Lemma cell_numba1_ok (x y : ndarray) (i j : nat) :
  wf x -> wf y -> i < nrows x -> j < nrows y -> ncols x <= ncols y ->
  cell_numba1 x y i j = ret (sq_euclid x y i j).
Proof.
  intros Hx Hy Hi Hj Hc. unfold cell_numba1, for_range.
  rewrite (for_from_ext _ (fun k r => ret (r + (get x i k - get y j k) ^ 2)%R)).
  - rewrite (for_from_sum (fun k => ((get x i k - get y j k) ^ 2)%R)).
    unfold sq_euclid, ret. f_equal. lra.
  - intros k r Hk.
    rewrite (getrow_wf x i Hx Hi). simpl.
    rewrite getitem_in by (rewrite wf_row_length by assumption; lia). simpl.
    rewrite (getrow_wf y j Hy Hj). simpl.
    rewrite getitem_in by (rewrite wf_row_length by assumption; lia). simpl.
    reflexivity.
Qed.

(** A row of [y] that does not exist is read as soon as there is a
    feature to read. *)
Lemma cell_numba1_no_row (x y : ndarray) (i j : nat) :
  wf x -> wf y -> i < nrows x -> 0 < ncols x -> nrows y <= j ->
  cell_numba1 x y i j = inl IndexError.
Proof.
  intros Hx Hy Hi Hd Hj. unfold cell_numba1, for_range.
  destruct (ncols x) as [| d] eqn:Ed; [lia |]. simpl.
  rewrite (getrow_wf x i Hx Hi). simpl.
  rewrite getitem_in by (rewrite wf_row_length by assumption; lia). simpl.
  rewrite (getrow_out y j Hy Hj). reflexivity.
Qed.

(** A feature [y] does not have is read after those it has. *)
Lemma cell_numba1_no_col (x y : ndarray) (i j : nat) :
  wf x -> wf y -> i < nrows x -> j < nrows y -> ncols y < ncols x ->
  cell_numba1 x y i j = inl IndexError.
Proof.
  intros Hx Hy Hi Hj Hc. unfold cell_numba1, for_range.
  apply (for_from_fail _ (fun _ _ => True) IndexError (ncols x) 0 (ncols y)).
  - lia.
  - exact I.
  - intros k r Hk _.
    rewrite (getrow_wf x i Hx Hi). simpl.
    rewrite getitem_in by (rewrite wf_row_length by assumption; lia). simpl.
    rewrite (getrow_wf y j Hy Hj). simpl.
    rewrite getitem_in by (rewrite wf_row_length by assumption; lia). simpl.
    eexists. split; [reflexivity | exact I].
  - intros r _.
    rewrite (getrow_wf x i Hx Hi). simpl.
    rewrite getitem_in by (rewrite wf_row_length by assumption; lia). simpl.
    rewrite (getrow_wf y j Hy Hj). simpl.
    rewrite getitem_out by (rewrite wf_row_length by assumption; lia).
    reflexivity.
Qed.

Lemma cell_numba1_never (x y : ndarray) (i j : nat) :
  cell_numba1 x y i j <> inl ShapeMismatch.
Proof.
  unfold cell_numba1, for_range. apply for_from_never. intros k r.
  unfold getrow, getitem.
  destruct (nth_error (data x) i) as [xi |]; simpl; [| discriminate].
  destruct (nth_error xi k); simpl; [| discriminate].
  destruct (nth_error (data y) j) as [yj |]; simpl; [| discriminate].
  destruct (nth_error yj k); simpl; discriminate.
Qed.

(** Whatever the feature loop returns is a sum of squares. *)
Lemma cell_numba1_nonneg (x y : ndarray) (i j : nat) (r : R) :
  cell_numba1 x y i j = inr r -> (0 <= r)%R.
Proof.
  unfold cell_numba1, for_range.
  apply (for_from_partial _ (fun r => 0 <= r)%R).
  - lra.
  - intros k t t' Ht E.
    apply bind_inr_inv in E. destruct E as [xi [_ E]].
    apply bind_inr_inv in E. destruct E as [xik [_ E]].
    apply bind_inr_inv in E. destruct E as [yj [_ E]].
    apply bind_inr_inv in E. destruct E as [yjk [_ E]].
    injection E as <-. pose proof (pow2_ge_0 (xik - yjk)). lra.
Qed.

(** The row operations of [euclidean_numba2] on two rows of one length. *)
Lemma subtract1_same (u v : list R) :
  length u = length v ->
  subtract1 u v = ret (map (fun k => (nth k u 0 - nth k v 0)%R) (seq 0 (length u))).
Proof.
  intros H. unfold subtract1, broadcast1. rewrite <- H, bdim_refl. simpl.
  unfold ret. f_equal. apply map_ext_in. intros k Hk. apply in_seq in Hk.
  rewrite bidx_lt by lia. reflexivity.
Qed.

Lemma cell_numba2_ok (x y : ndarray) (i j : nat) :
  wf x -> wf y -> i < nrows x -> j < nrows y -> ncols x = ncols y ->
  cell_numba2 x y i j = ret (sq_euclid x y i j).
Proof.
  intros Hx Hy Hi Hj Hc. unfold cell_numba2.
  rewrite (getrow_wf x i Hx Hi). simpl.
  rewrite (getrow_wf y j Hy Hj). simpl.
  pose proof (wf_row_length x i Hx Hi) as Lx.
  pose proof (wf_row_length y j Hy Hj) as Ly.
  rewrite subtract1_same by lia. simpl.
  unfold ret, sq_euclid, square1, get. f_equal.
  rewrite map_map, Lx. reflexivity.
Qed.

Lemma cell_numba2_no_row (x y : ndarray) (i j : nat) :
  wf x -> wf y -> i < nrows x -> nrows y <= j ->
  cell_numba2 x y i j = inl IndexError.
Proof.
  intros Hx Hy Hi Hj. unfold cell_numba2.
  rewrite (getrow_wf x i Hx Hi). simpl.
  rewrite (getrow_out y j Hy Hj). reflexivity.
Qed.

(** ** The bulk operations of [euclidean_numpy] *)

Lemma einsum_self (x : ndarray) :
  einsum_ij_ij_i x x = ret (map (sqnorm x) (seq 0 (nrows x))).
Proof.
  unfold einsum_ij_ij_i. rewrite !bdim_refl. simpl.
  unfold ret. f_equal. apply map_ext_in. intros i Hi. apply in_seq in Hi.
  unfold sqnorm. f_equal. apply map_ext_in. intros k Hk. apply in_seq in Hk.
  rewrite !bidx_lt by lia. reflexivity.
Qed.

Lemma get_newaxis (v : list R) (i : nat) :
  get (newaxis v) i 0 = nth i v 0%R.
Proof.
  unfold get, newaxis. simpl.
  destruct (Nat.lt_ge_cases i (length v)) as [H | H].
  - rewrite (nth_indep _ [] [0%R]) by (rewrite length_map; exact H).
    rewrite (map_nth (fun e => [e])). reflexivity.
  - rewrite (nth_overflow (map (fun e => [e]) v)) by (rewrite length_map; exact H).
    rewrite (nth_overflow v) by exact H. reflexivity.
Qed.

(** [x2 + y2]: a column plus a row is the table of the pairwise sums. *)
Lemma add_col_row (u v : list R) :
  add (newaxis u) (transpose (newaxis v)) =
  ret (tabulate (length u) (length v) (fun i j => (nth i u 0 + nth j v 0)%R)).
Proof.
  unfold add, broadcast2. simpl. rewrite bdim_1_r, bdim_1_l. simpl.
  unfold ret. f_equal. apply tabulate_ext. intros i j Hi Hj.
  replace (bidx 1 j) with 0 by reflexivity.
  replace (bidx 1 i) with 0 by reflexivity.
  rewrite !bidx_lt by assumption.
  rewrite get_newaxis.
  unfold transpose. rewrite get_tabulate by (simpl; lia).
  rewrite get_newaxis. reflexivity.
Qed.

(** [np.dot(x, y.T)]: the table of the inner products of the rows, if the
    rows have one length. *)
Lemma dot_transpose (x y : ndarray) :
  ncols x = ncols y ->
  dot x (transpose y) = ret (tabulate (nrows x) (nrows y) (cross x y)).
Proof.
  intros H. unfold dot. simpl. rewrite H, Nat.eqb_refl.
  unfold ret. f_equal. apply tabulate_ext. intros i j Hi Hj.
  unfold cross. rewrite H. f_equal. apply map_ext_in. intros k Hk. apply in_seq in Hk.
  unfold transpose. rewrite get_tabulate by lia. reflexivity.
Qed.

Lemma dot_transpose_mismatch (x y : ndarray) :
  ncols x <> ncols y -> dot x (transpose y) = raise ShapeMismatch.
Proof.
  intros H. unfold dot. simpl.
  destruct (Nat.eqb_spec (ncols x) (ncols y)); [contradiction | reflexivity].
Qed.

Lemma scale_tabulate (c : R) (n m : nat) (f : nat -> nat -> R) :
  scale c (tabulate n m f) = tabulate n m (fun i j => (c * f i j)%R).
Proof.
  unfold scale. simpl. apply tabulate_ext. intros i j Hi Hj.
  rewrite get_tabulate by assumption. reflexivity.
Qed.

Lemma np_abs_tabulate (n m : nat) (f : nat -> nat -> R) :
  np_abs (tabulate n m f) = tabulate n m (fun i j => Rabs (f i j)).
Proof.
  unfold np_abs. simpl. apply tabulate_ext. intros i j Hi Hj.
  rewrite get_tabulate by assumption. reflexivity.
Qed.

Lemma subtract_tabulate (n m : nat) (f g : nat -> nat -> R) :
  subtract (tabulate n m f) (tabulate n m g) =
  ret (tabulate n m (fun i j => (f i j - g i j)%R)).
Proof.
  unfold subtract, broadcast2. simpl. rewrite !bdim_refl. simpl.
  unfold ret. f_equal. apply tabulate_ext. intros i j Hi Hj.
  rewrite !bidx_lt by assumption.
  rewrite !get_tabulate by assumption. reflexivity.
Qed.

(** The expansion, term by term. *)
Lemma expansion (f g : nat -> R) (l : list nat) :
  (sum (map (fun k => f k * f k) l) + sum (map (fun k => g k * g k) l)
   - 2 * sum (map (fun k => f k * g k) l))%R
  = sum (map (fun k => (f k - g k) ^ 2)%R l).
Proof.
  induction l as [| k l IH].
  - simpl. lra.
  - cbn [map sum fold_right]. fold (sum (map (fun k => (f k - g k) ^ 2)%R l)).
    rewrite <- IH. unfold sum. ring.
Qed.

Lemma expansion_rows (x y : ndarray) (i j : nat) :
  ncols x = ncols y ->
  (sqnorm x i + sqnorm y j - 2 * cross x y i j)%R = sq_euclid x y i j.
Proof.
  intros H. unfold sqnorm, cross, sq_euclid. rewrite <- H.
  apply (expansion (get x i) (get y j)).
Qed.

(** What [euclidean_numpy] returns, as the code combines it. *)
Lemma numpy_expanded (x y : ndarray) :
  ncols x = ncols y ->
  euclidean_numpy x y =
  ret (tabulate (nrows x) (nrows y)
         (fun i j => Rabs (sqnorm x i + sqnorm y j - 2 * cross x y i j))).
Proof.
  intros H. unfold euclidean_numpy.
  rewrite !einsum_self. simpl.
  rewrite (dot_transpose x y H). simpl.
  rewrite add_col_row. simpl.
  rewrite !length_map, !length_seq.
  rewrite scale_tabulate, subtract_tabulate. simpl.
  rewrite np_abs_tabulate.
  unfold ret. f_equal. apply tabulate_ext. intros i j Hi Hj.
  rewrite !nth_map_seq by assumption. reflexivity.
Qed.

Lemma numpy_ok (x y : ndarray) :
  ncols x = ncols y ->
  euclidean_numpy x y = inr (tabulate (nrows x) (nrows y) (sq_euclid x y)).
Proof.
  intros H. rewrite (numpy_expanded x y H). unfold ret. f_equal.
  apply tabulate_ext. intros i j _ _.
  rewrite (expansion_rows x y i j H).
  apply Rabs_pos_eq. apply sq_euclid_nonneg.
Qed.

Lemma numpy_mismatch (x y : ndarray) :
  ncols x <> ncols y -> euclidean_numpy x y = inl ShapeMismatch.
Proof.
  intros H. unfold euclidean_numpy.
  rewrite !einsum_self. simpl.
  rewrite (dot_transpose_mismatch x y H). reflexivity.
Qed.

(** ** The two loop functions *)

(** [euclidean_numba1] reads [y] in the first [nrows x] rows and the first
    [ncols x] columns only. *)
Lemma numba1_ok (x y : ndarray) :
  wf x -> wf y -> nrows x <= nrows y -> ncols x <= ncols y ->
  euclidean_numba1 x y = inr (tabulate (nrows x) (nrows x) (sq_euclid x y)).
Proof.
  intros Hx Hy Hr Hc. rewrite numba1_fill. apply fill_ok.
  intros i j Hi Hj. apply cell_numba1_ok; try assumption; lia.
Qed.

Lemma numba2_ok (x y : ndarray) :
  wf x -> wf y -> nrows x <= nrows y -> ncols x = ncols y ->
  euclidean_numba2 x y = inr (tabulate (nrows x) (nrows x) (sq_euclid x y)).
Proof.
  intros Hx Hy Hr Hc. rewrite numba2_fill. apply fill_ok.
  intros i j Hi Hj. apply cell_numba2_ok; try assumption; lia.
Qed.

(** With fewer rows in [y], row [nrows y] of [y] is read while the first
    row of the result is computed. *)
Lemma numba1_short (x y : ndarray) :
  wf x -> wf y -> nrows y < nrows x -> 0 < ncols x -> ncols x <= ncols y ->
  euclidean_numba1 x y = inl IndexError.
Proof.
  intros Hx Hy Hr Hd Hc. rewrite numba1_fill.
  apply (fill_fail _ _ (sq_euclid x y) IndexError (nrows y)).
  - exact Hr.
  - intros j Hj. apply cell_numba1_ok; try assumption; lia.
  - apply cell_numba1_no_row; try assumption; lia.
Qed.

Lemma numba2_short (x y : ndarray) :
  wf x -> wf y -> nrows y < nrows x -> ncols x = ncols y ->
  euclidean_numba2 x y = inl IndexError.
Proof.
  intros Hx Hy Hr Hc. rewrite numba2_fill.
  apply (fill_fail _ _ (sq_euclid x y) IndexError (nrows y)).
  - exact Hr.
  - intros j Hj. apply cell_numba2_ok; try assumption; lia.
  - apply cell_numba2_no_row; try assumption; lia.
Qed.

Lemma numba1_never_mismatch (x y : ndarray) :
  euclidean_numba1 x y <> inl ShapeMismatch.
Proof.
  rewrite numba1_fill. apply fill_never. apply cell_numba1_never.
Qed.

(** ** Non-negative entries *)

Lemma nonneg_zeros (n m : nat) : nonneg (zeros n m).
Proof.
  unfold nonneg, zeros. simpl. apply Forall_forall. intros r Hr.
  apply repeat_spec in Hr. subst r. apply Forall_forall. intros e He.
  apply repeat_spec in He. subst e. lra.
Qed.

Lemma nonneg_setitem (dm dm' : ndarray) (i j : nat) (v : R) :
  nonneg dm -> (0 <= v)%R -> setitem dm i j v = inr dm' -> nonneg dm'.
Proof.
  unfold nonneg, setitem, getrow. intros Hdm Hv E.
  destruct (nth_error (data dm) i) as [r |] eqn:Er; simpl in E; [| discriminate].
  destruct (j <? length r); [| discriminate].
  injection E as <-. simpl.
  apply Forall_set_nth; [exact Hdm |].
  apply Forall_set_nth; [| exact Hv].
  rewrite Forall_forall in Hdm. apply Hdm.
  apply (nth_error_In _ _ Er).
Qed.

Lemma nonneg_entry (dm : ndarray) (i j : nat) (v : R) :
  nonneg dm -> entry dm i j = inr v -> (0 <= v)%R.
Proof.
  unfold nonneg, entry, getrow, getitem. intros Hdm E.
  destruct (nth_error (data dm) i) as [r |] eqn:Er; simpl in E; [| discriminate].
  destruct (nth_error r j) as [e |] eqn:Ee; [| discriminate].
  injection E as <-.
  rewrite Forall_forall in Hdm. pose proof (Hdm r (nth_error_In _ _ Er)) as Hrow.
  rewrite Forall_forall in Hrow. apply Hrow. apply (nth_error_In _ _ Ee).
Qed.

(** Whatever the nest returns holds non-negative values if the cells are. *)
Lemma fill_nonneg (n : nat) (cell : nat -> nat -> result R) (out : ndarray) :
  (forall i j r, cell i j = inr r -> (0 <= r)%R) ->
  fill n cell = inr out -> nonneg out.
Proof.
  intros Hcell. unfold fill, for_range.
  apply for_from_partial.
  - apply nonneg_zeros.
  - intros i t t' Ht. apply for_from_partial.
    + exact Ht.
    + intros j u u' Hu E.
      apply bind_inr_inv in E. destruct E as [r [Er E]].
      apply (nonneg_setitem u u' i j r Hu); [| exact E].
      apply (Hcell i j r Er).
Qed.

(** ** Swapping the arguments, equal arguments, extra rows *)

Lemma sq_euclid_swap (x y : ndarray) (i j : nat) :
  ncols x = ncols y -> sq_euclid x y i j = sq_euclid y x j i.
Proof.
  intros H. unfold sq_euclid. rewrite <- H. f_equal.
  apply map_ext. intros k. ring.
Qed.

Lemma sq_euclid_self (x : ndarray) (i : nat) : sq_euclid x x i i = 0%R.
Proof.
  unfold sq_euclid, sum. induction (seq 0 (ncols x)) as [| k l IH].
  - reflexivity.
  - cbn [map fold_right]. rewrite IH. ring.
Qed.

Lemma wf_truncate (n : nat) (y : ndarray) : wf y -> wf (truncate n y).
Proof.
  intros [Hl Hr]. split; simpl.
  - rewrite length_firstn, Hl. reflexivity.
  - rewrite <- (firstn_skipn n (data y)) in Hr.
    apply Forall_app in Hr. apply Hr.
Qed.

Lemma sq_euclid_truncate (n : nat) (x y : ndarray) (i j : nat) :
  j < n -> sq_euclid x (truncate n y) i j = sq_euclid x y i j.
Proof.
  intros Hj. unfold sq_euclid. f_equal. apply map_ext. intros k.
  unfold get, truncate. simpl. rewrite nth_firstn.
  destruct (Nat.ltb_spec j n); [reflexivity | lia].
Qed.

(** ** The sample inputs *)

Ltac solve_wf := split; [reflexivity | repeat constructor].

Ltac solve_valid := split; [solve_wf | split; [solve_wf | reflexivity]].

Lemma wf_X_pts : wf X_pts.
Proof. solve_wf. Defined.

Lemma valid_pts : valid_pair X_pts X_pts.
Proof. solve_valid. Defined.


Lemma valid_1x1_2x1 : valid_pair X_1x1 Y_2x1.
Proof. solve_valid. Defined.

Lemma valid_2x1_1x1 : valid_pair Y_2x1 X_1x1.
Proof. solve_valid. Defined.

Lemma valid_0x5_3x5 : valid_pair X_0x5 Y_3x5.
Proof. solve_valid. Defined.

Lemma wf_X_1x4 : wf X_1x4.
Proof. solve_wf. Defined.

Lemma wf_Y_1x5 : wf Y_1x5.
Proof. solve_wf. Defined.

(** The two worked scenarios: the points (0,0) and (3,4) are at squared
    distance 25, the rows (1,2,3) and (4,5,6) at 27. *)
Example numba1_pts :
  euclidean_numba1 X_pts X_pts = inr (of_rows 2 [[0; 25]; [25; 0]]%R).
Proof.
  cbn. unfold ret, of_rows. cbn. repeat f_equal; ring.
Qed.

Example numba2_pts :
  euclidean_numba2 X_pts X_pts = inr (of_rows 2 [[0; 25]; [25; 0]]%R).
Proof.
  cbn. unfold ret, of_rows. cbn. repeat f_equal; ring.
Qed.

Example numpy_pts :
  euclidean_numpy X_pts X_pts = inr (of_rows 2 [[0; 25]; [25; 0]]%R).
Proof.
  rewrite numpy_ok by reflexivity. unfold tabulate, of_rows, sq_euclid. cbn.
  repeat f_equal; ring.
Qed.

Example numba1_123_456 :
  euclidean_numba1 X_123 Y_456 = inr (of_rows 1 [[27]]%R).
Proof.
  cbn. unfold ret, of_rows. cbn. repeat f_equal; ring.
Qed.

Example numpy_123_456 :
  euclidean_numpy X_123 Y_456 = inr (of_rows 1 [[27]]%R).
Proof.
  rewrite numpy_ok by reflexivity. unfold tabulate, of_rows, sq_euclid. cbn.
  repeat f_equal; ring.
Qed.

(** Arrays without features, in the undecorated functions: the feature
    loop of [euclidean_loop0] has no round and never reads [y],
    [euclidean_loop1] reads the row [y[j]] first and raises. *)
Example no_features :
  valid_pair X_1x0 Y_0x0 /\
  euclidean_loop0 X_1x0 Y_0x0 = inr (of_rows 1 [[0%R]]) /\
  euclidean_loop1 X_1x0 Y_0x0 = inl IndexError.
Proof.
  split; [solve_valid |]. split; reflexivity.
Qed.

(** * Binary64: what is never negative *)

Module Binary64Facts.

Import Floats.
Import Binary64.

(** ** Signs of doubles *)








(** ** Properties of all elements of a matrix *)





(** ** [euclidean_numpy] *)



(** ** [euclidean_numba1] *)







End Binary64Facts.

(** * The claims *)

(** ** C1: the shape of the result *)

(** C1, as stated, fails for [euclidean_numba1]: for [X] of shape (0, 5)
    and [Y] of shape (3, 5) the result has shape (0, 0), not (0, 3). *)
Lemma C1_counterexample :
  valid_pair X_0x5 Y_3x5 /\
  nrows X_0x5 = 0 /\ nrows Y_3x5 = 3 /\
  ~ (exists out, euclidean_numba1 X_0x5 Y_3x5 = inr out /\ shape out = (0, 3)).
Proof.
  split; [exact valid_0x5_3x5 |]. split; [reflexivity |]. split; [reflexivity |].
  intros [out [E Hs]]. cbn in E. injection E as <-. discriminate Hs.
Qed.

(** C1, amended: for a valid pair, [euclidean_numpy] returns a matrix of
    shape (rows(X), rows(Y)); [euclidean_numba1] and [euclidean_numba2]
    return a matrix of shape (rows(X), rows(X)) whenever [Y] has at least as
    many rows as [X]; when [X] has no rows the two of them return the empty
    matrix of shape (0, 0), without error. *)
Theorem C1_shape (x y : ndarray) :
  valid_pair x y ->
  (exists out, euclidean_numpy x y = inr out /\
               shape out = (nrows x, nrows y)) /\
  (nrows x <= nrows y ->
   (exists out, euclidean_numba1 x y = inr out /\
                shape out = (nrows x, nrows x)) /\
   (exists out, euclidean_numba2 x y = inr out /\
                shape out = (nrows x, nrows x))) /\
  (nrows x = 0 ->
   euclidean_numba1 x y = inr (zeros 0 0) /\
   euclidean_numba2 x y = inr (zeros 0 0)).
Proof.
  intros (Hx & Hy & Hc). split; [| split].
  - eexists. split; [apply numpy_ok; exact Hc | reflexivity].
  - intros Hr. split.
    + eexists. split; [apply numba1_ok; try assumption; lia | reflexivity].
    + eexists. split; [apply numba2_ok; assumption | reflexivity].
  - intros H0. rewrite numba2_fill, numba1_fill, H0. split; reflexivity.
Qed.

Lemma C1_shape_witness :
  (exists out, euclidean_numpy X_0x5 Y_3x5 = inr out /\
               shape out = (nrows X_0x5, nrows Y_3x5)) /\
  (nrows X_0x5 <= nrows Y_3x5 ->
   (exists out, euclidean_numba1 X_0x5 Y_3x5 = inr out /\
                shape out = (nrows X_0x5, nrows X_0x5)) /\
   (exists out, euclidean_numba2 X_0x5 Y_3x5 = inr out /\
                shape out = (nrows X_0x5, nrows X_0x5))) /\
  (nrows X_0x5 = 0 ->
   euclidean_numba1 X_0x5 Y_3x5 = inr (zeros 0 0) /\
   euclidean_numba2 X_0x5 Y_3x5 = inr (zeros 0 0)).
Proof.
  apply (C1_shape X_0x5 Y_3x5). exact valid_0x5_3x5.
Defined.

(** ** C2: the errors *)

(** C2, as stated, fails for [euclidean_numba1]: with 4 features in [X]
    and 5 in [Y] it returns a matrix, no error is raised. *)
Lemma C2_counterexample :
  wf X_1x4 /\ wf Y_1x5 /\ ncols X_1x4 <> ncols Y_1x5 /\
  euclidean_numba1 X_1x4 Y_1x5 <> inl ShapeMismatch /\
  exists out, euclidean_numba1 X_1x4 Y_1x5 = inr out.
Proof.
  split; [exact wf_X_1x4 |]. split; [exact wf_Y_1x5 |].
  split; [simpl; lia |]. split; [cbn; discriminate |].
  eexists. cbn. reflexivity.
Qed.

(** C2, amended: [euclidean_numpy] fails with [ShapeMismatch] when the
    feature dimensions differ and returns a matrix when they are equal, so
    it has no other error; [euclidean_numba1] checks no shape and never
    fails with [ShapeMismatch]: it returns a matrix whenever [Y] has at
    least as many rows and as many features as [X]. *)
Theorem C2_errors (x y : ndarray) :
  (ncols x <> ncols y -> euclidean_numpy x y = inl ShapeMismatch) /\
  (ncols x = ncols y -> exists out, euclidean_numpy x y = inr out) /\
  euclidean_numba1 x y <> inl ShapeMismatch /\
  (wf x -> wf y -> nrows x <= nrows y -> ncols x <= ncols y ->
   exists out, euclidean_numba1 x y = inr out).
Proof.
  split; [apply numpy_mismatch |]. split; [| split].
  - intros H. eexists. apply numpy_ok. exact H.
  - apply numba1_never_mismatch.
  - intros Hx Hy Hr Hc. eexists. apply numba1_ok; assumption.
Qed.

Lemma C2_errors_witness :
  euclidean_numpy X_1x4 Y_1x5 = inl ShapeMismatch /\
  (exists out, euclidean_numpy X_pts X_pts = inr out) /\
  (exists out, euclidean_numba1 X_1x4 Y_1x5 = inr out).
Proof.
  split; [| split].
  - apply (proj1 (C2_errors X_1x4 Y_1x5)). simpl. lia.
  - apply (proj1 (proj2 (C2_errors X_pts X_pts))). reflexivity.
  - apply (proj2 (proj2 (proj2 (C2_errors X_1x4 Y_1x5)))).
    + exact wf_X_1x4.
    + exact wf_Y_1x5.
    + simpl. lia.
    + simpl. lia.
Defined.

(** ** C3: the entries of the direct strategy *)

(** C3, as stated, fails: for [X] with one row and [Y] with two, the entry
    (0, 1) is inside the stated range and the result, of shape (1, 1), has
    no such entry. *)
Lemma C3_counterexample :
  valid_pair X_1x1 Y_2x1 /\ 0 < nrows X_1x1 /\ 1 < nrows Y_2x1 /\
  ~ (exists out, euclidean_numba1 X_1x1 Y_2x1 = inr out /\
                 entry out 0 1 = inr (sq_euclid X_1x1 Y_2x1 0 1)).
Proof.
  split; [exact valid_1x1_2x1 |]. split; [simpl; lia |]. split; [simpl; lia |].
  intros [out [E He]]. cbn in E. injection E as <-. cbn in He. discriminate He.
Qed.

(** C3, amended: for every valid pair in which [Y] has at least as many
    rows as [X], [euclidean_numba1] returns a matrix whose entry (i, j),
    for i and j below rows(X), is the sum over k of (X[i][k] - Y[j][k])^2. *)
Theorem C3_direct_entries (x y : ndarray) :
  valid_pair x y -> nrows x <= nrows y ->
  exists out, euclidean_numba1 x y = inr out /\
    forall i j, i < nrows x -> j < nrows x ->
      entry out i j = inr (sq_euclid x y i j).
Proof.
  intros (Hx & Hy & Hc) Hr. eexists. split.
  - apply numba1_ok; try assumption. lia.
  - intros i j Hi Hj. apply entry_tabulate; assumption.
Qed.

Lemma C3_direct_entries_witness :
  exists out, euclidean_numba1 X_1x1 Y_2x1 = inr out /\
    forall i j, i < nrows X_1x1 -> j < nrows X_1x1 ->
      entry out i j = inr (sq_euclid X_1x1 Y_2x1 i j).
Proof.
  apply (C3_direct_entries X_1x1 Y_2x1).
  - exact valid_1x1_2x1.
  - simpl. lia.
Defined.

(** ** C4: the expansion against the direct strategy *)

(** C4, as stated, fails twice.  For [X] with one row and [Y] with two,
    [euclidean_numpy] returns a matrix of shape (1, 2) and
    [euclidean_numba1] one of shape (1, 1).  And in binary64, for the rows
    (1e8, 1) and (1e8, 0), the expansion cancels to 0 where the direct sum
    is 1: the two results are not within 1e-6 absolute nor 1e-9 relative. *)
Lemma C4_counterexample :
  (valid_pair X_1x1 Y_2x1 /\
   euclidean_numpy X_1x1 Y_2x1 <> euclidean_numba1 X_1x1 Y_2x1) /\
  (Binary64.wf Binary64.X_big /\ Binary64.wf Binary64.Y_big /\
   Binary64.shape Binary64.X_big = Binary64.shape Binary64.Y_big /\
   exists a b u v,
     Binary64.euclidean_numpy Binary64.X_big Binary64.Y_big = inr a /\
     Binary64.euclidean_numba1 Binary64.X_big Binary64.Y_big = inr b /\
     Binary64.entry a 0 0 = inr u /\ Binary64.entry b 0 0 = inr v /\
     Binary64.close u v = false).
Proof.
  split.
  - split; [exact valid_1x1_2x1 |].
    rewrite numpy_ok by reflexivity. intros H.
    apply (f_equal (fun r : result ndarray =>
                      match r with inr a => ncols a | inl _ => 0 end)) in H.
    cbn in H. discriminate H.
  - split; [solve_wf |]. split; [solve_wf |]. split; [reflexivity |].
    do 4 eexists.
    split; [vm_compute; reflexivity |].
    split; [vm_compute; reflexivity |].
    split; [vm_compute; reflexivity |].
    split; [vm_compute; reflexivity |].
    vm_compute. reflexivity.
Qed.

(** C4, amended: for every valid pair with the same number of rows,
    [euclidean_numpy] and [euclidean_numba1] return matrices of the one
    shape (N, N); the entry (i, j) of the first is
    |x2[i] + y2[j] - 2 xy[i][j]|, that of the second the sum over k of
    (X[i][k] - Y[j][k])^2, and as real numbers, over exact arithmetic,
    the two expressions are equal.  No tolerance is stated for
    binary64. *)
Theorem C4_expansion_agrees (x y : ndarray) :
  valid_pair x y -> nrows x = nrows y ->
  exists a b,
    euclidean_numpy x y = inr a /\ euclidean_numba1 x y = inr b /\
    shape a = (nrows x, nrows x) /\ shape b = (nrows x, nrows x) /\
    forall i j, i < nrows x -> j < nrows x ->
      entry a i j =
        inr (Rabs (sqnorm x i + sqnorm y j - 2 * cross x y i j))%R /\
      entry b i j = inr (sq_euclid x y i j) /\
      Rabs (sqnorm x i + sqnorm y j - 2 * cross x y i j)%R = sq_euclid x y i j.
Proof.
  intros (Hx & Hy & Hc) Hr. eexists. eexists.
  split; [apply numpy_expanded; exact Hc |].
  split; [apply numba1_ok; try assumption; lia |].
  rewrite <- Hr. split; [reflexivity |]. split; [reflexivity |].
  intros i j Hi Hj. split; [| split].
  - rewrite entry_tabulate by assumption. reflexivity.
  - rewrite entry_tabulate by assumption. reflexivity.
  - rewrite (expansion_rows x y i j Hc). apply Rabs_pos_eq. apply sq_euclid_nonneg.
Qed.

Lemma C4_expansion_agrees_witness :
  exists a b,
    euclidean_numpy X_pts X_pts = inr a /\ euclidean_numba1 X_pts X_pts = inr b /\
    shape a = (nrows X_pts, nrows X_pts) /\ shape b = (nrows X_pts, nrows X_pts) /\
    forall i j, i < nrows X_pts -> j < nrows X_pts ->
      entry a i j =
        inr (Rabs (sqnorm X_pts i + sqnorm X_pts j - 2 * cross X_pts X_pts i j))%R /\
      entry b i j = inr (sq_euclid X_pts X_pts i j) /\
      Rabs (sqnorm X_pts i + sqnorm X_pts j - 2 * cross X_pts X_pts i j)%R
      = sq_euclid X_pts X_pts i j.
Proof.
  apply (C4_expansion_agrees X_pts X_pts valid_pts). reflexivity.
Defined.

(** ** C5: the two loop functions *)



(** ** C6: non-negative entries *)




(** ** C7: swapping the arguments *)




(** ** C8: a matrix against itself *)

(** C8, as stated, fails for [euclidean_numpy] in binary64: for the one
    row (1e200) the diagonal entry is NaN, not zero within any tolerance. *)
Lemma C8_counterexample :
  Binary64.wf Binary64.X_huge /\
  exists out v,
    Binary64.euclidean_numpy Binary64.X_huge Binary64.X_huge = inr out /\
    Binary64.entry out 0 0 = inr v /\
    Binary64.close v PrimFloat.zero = false /\ PrimFloat.is_nan v = true.
Proof.
  split; [solve_wf |]. do 2 eexists.
  split; [vm_compute; reflexivity |].
  split; [vm_compute; reflexivity |].
  split; vm_compute; reflexivity.
Qed.

(** C8, amended: for every well-formed [X], [euclidean_numba1(X, X)] is
    returned, of shape (N, N), symmetric and with a zero diagonal, each
    diagonal entry being a sum of squares of [a - a]; [euclidean_numpy(X,
    X)] is returned with the same shape, and nothing is stated of its
    diagonal. *)
Theorem C8_self_distance (x : ndarray) :
  wf x ->
  (exists a, euclidean_numba1 x x = inr a /\
     shape a = (nrows x, nrows x) /\
     (forall i, i < nrows x -> entry a i i = inr 0%R) /\
     (forall i j, i < nrows x -> j < nrows x -> entry a i j = entry a j i)) /\
  (exists a, euclidean_numpy x x = inr a /\ shape a = (nrows x, nrows x)).
Proof.
  intros Hx. split.
  - eexists. split; [apply numba1_ok; try assumption; lia |].
    split; [reflexivity |]. split.
    + intros i Hi. rewrite entry_tabulate by assumption.
      rewrite sq_euclid_self. reflexivity.
    + intros i j Hi Hj. rewrite !entry_tabulate by assumption.
      rewrite (sq_euclid_swap x x i j eq_refl). reflexivity.
  - eexists. split; [apply numpy_ok; reflexivity | reflexivity].
Qed.

Lemma C8_self_distance_witness :
  exists a, euclidean_numba1 X_pts X_pts = inr a /\
     shape a = (nrows X_pts, nrows X_pts) /\
     (forall i, i < nrows X_pts -> entry a i i = inr 0%R) /\
     (forall i j, i < nrows X_pts -> j < nrows X_pts ->
                  entry a i j = entry a j i).
Proof.
  apply (proj1 (C8_self_distance X_pts wf_X_pts)).
Defined.

(** ** C9: rows of [Y] beyond those of [X] *)

(** C9: for every valid pair in which [Y] has more rows than [X],
    [euclidean_numba1] and [euclidean_numba2] return a matrix, the one they
    return for [Y] cut down to its first rows(X) rows. *)
Theorem C9_extra_rows_ignored (x y : ndarray) :
  valid_pair x y -> nrows x < nrows y ->
  euclidean_numba1 x y = euclidean_numba1 x (truncate (nrows x) y) /\
  euclidean_numba2 x y = euclidean_numba2 x (truncate (nrows x) y) /\
  (exists out, euclidean_numba1 x y = inr out) /\
  (exists out, euclidean_numba2 x y = inr out).
Proof.
  intros (Hx & Hy & Hc) Hr.
  pose proof (wf_truncate (nrows x) y Hy) as Ht.
  assert (Hrt : nrows x <= nrows (truncate (nrows x) y)) by (simpl; lia).
  assert (Hct : ncols x = ncols (truncate (nrows x) y)) by exact Hc.
  assert (Heq : tabulate (nrows x) (nrows x) (sq_euclid x (truncate (nrows x) y))
                = tabulate (nrows x) (nrows x) (sq_euclid x y)).
  { apply tabulate_ext. intros i j _ Hj. apply sq_euclid_truncate. exact Hj. }
  rewrite (numba1_ok x y Hx Hy) by lia.
  rewrite (numba1_ok x _ Hx Ht Hrt) by lia.
  rewrite (numba2_ok x y Hx Hy) by (lia || exact Hc).
  rewrite (numba2_ok x _ Hx Ht Hrt Hct).
  rewrite Heq.
  split; [reflexivity |]. split; [reflexivity |].
  split; eexists; reflexivity.
Qed.

Lemma C9_extra_rows_ignored_witness :
  euclidean_numba1 X_1x1 Y_2x1 = euclidean_numba1 X_1x1 (truncate (nrows X_1x1) Y_2x1) /\
  euclidean_numba2 X_1x1 Y_2x1 = euclidean_numba2 X_1x1 (truncate (nrows X_1x1) Y_2x1) /\
  (exists out, euclidean_numba1 X_1x1 Y_2x1 = inr out) /\
  (exists out, euclidean_numba2 X_1x1 Y_2x1 = inr out).
Proof.
  apply (C9_extra_rows_ignored X_1x1 Y_2x1).
  - exact valid_1x1_2x1.
  - simpl. lia.
Defined.

(** ** C10: the reads stay inside the arrays *)

(** C10: for every valid pair in which [Y] has at least as many rows as
    [X], [euclidean_numba1] and [euclidean_numba2] return a matrix and no
    read is out of bounds; when [Y] has fewer rows, [euclidean_numba2]
    reads a row [Y] does not have, and so does [euclidean_numba1] as soon
    as the arrays have a feature to read. *)
Theorem C10_in_bounds (x y : ndarray) :
  valid_pair x y ->
  (nrows x <= nrows y ->
   (exists out, euclidean_numba1 x y = inr out) /\
   (exists out, euclidean_numba2 x y = inr out)) /\
  (nrows y < nrows x ->
   euclidean_numba2 x y = inl IndexError /\
   (0 < ncols x -> euclidean_numba1 x y = inl IndexError)).
Proof.
  intros (Hx & Hy & Hc). split.
  - intros Hr. split; eexists.
    + apply numba1_ok; try assumption. lia.
    + apply numba2_ok; assumption.
  - intros Hr. split.
    + apply numba2_short; assumption.
    + intros Hd. apply numba1_short; try assumption. lia.
Qed.

Lemma C10_in_bounds_witness :
  ((exists out, euclidean_numba1 X_1x1 Y_2x1 = inr out) /\
   (exists out, euclidean_numba2 X_1x1 Y_2x1 = inr out)) /\
  euclidean_numba2 Y_2x1 X_1x1 = inl IndexError /\
  euclidean_numba1 Y_2x1 X_1x1 = inl IndexError.
Proof.
  split.
  - apply (proj1 (C10_in_bounds X_1x1 Y_2x1 valid_1x1_2x1)). simpl. lia.
  - destruct (proj2 (C10_in_bounds Y_2x1 X_1x1 valid_2x1_1x1)) as [H2 H1].
    + simpl. lia.
    + split; [exact H2 | apply H1; simpl; lia].
Defined.


(** * Further properties of the loop functions *)

(** ** The shape of what is returned *)

Lemma setitem_keeps_wf (dm dm' : ndarray) (i j : nat) (v : R) :
  wf dm -> setitem dm i j v = inr dm' ->
  wf dm' /\ nrows dm' = nrows dm /\ ncols dm' = ncols dm.
Proof.
  unfold setitem, getrow. intros [Hl Hr] E.
  destruct (nth_error (data dm) i) as [r |] eqn:Er; simpl in E; [| discriminate].
  destruct (j <? length r); [| discriminate].
  injection E as <-. simpl. split; [| split; reflexivity].
  split; simpl.
  - rewrite length_set_nth. exact Hl.
  - apply Forall_set_nth; [exact Hr |]. rewrite length_set_nth.
    rewrite Forall_forall in Hr. apply Hr. apply (nth_error_In _ _ Er).
Qed.

Lemma wf_zeros (n m : nat) : wf (zeros n m).
Proof. rewrite zeros_tabulate. apply wf_tabulate. Qed.

Lemma fill_shape (n : nat) (cell : nat -> nat -> result R) (out : ndarray) :
  fill n cell = inr out -> wf out /\ shape out = (n, n).
Proof.
  unfold fill, for_range.
  apply (for_from_partial _ (fun dm => wf dm /\ shape dm = (n, n))).
  - split; [apply wf_zeros | reflexivity].
  - intros i t t' Ht.
    apply (for_from_partial _ (fun dm => wf dm /\ shape dm = (n, n))); [exact Ht |].
    intros j u u' [Hu Hs] E.
    apply bind_inr_inv in E. destruct E as [r [_ E]].
    destruct (setitem_keeps_wf u u' i j r Hu E) as (Hw & Hn & Hm).
    split; [exact Hw |]. unfold shape in *. rewrite Hn, Hm. exact Hs.
Qed.

(** Whatever the two arrays hold, a matrix [euclidean_numba1] or
    [euclidean_numba2] returns is a well-formed square matrix sized by the
    first dimension of [x.shape]. *)
Theorem loops_return_square (x y out : ndarray) :
  euclidean_numba1 x y = inr out \/ euclidean_numba2 x y = inr out ->
  wf out /\ shape out = (nrows x, nrows x).
Proof.
  intros [E | E].
  - rewrite numba1_fill in E. apply (fill_shape _ _ _ E).
  - rewrite numba2_fill in E. apply (fill_shape _ _ _ E).
Qed.

Lemma loops_return_square_witness :
  wf (of_rows 1 [[27]]%R) /\ shape (of_rows 1 [[27]]%R) = (nrows X_123, nrows X_123).
Proof.
  apply (loops_return_square X_123 Y_456). left. exact numba1_123_456.
Defined.

(** ** When the feature loops return *)

Lemma sq_euclid_no_features (x y : ndarray) (i j : nat) :
  ncols x = 0 -> sq_euclid x y i j = 0%R.
Proof. intros H. unfold sq_euclid. rewrite H. reflexivity. Qed.

Lemma numba1_no_features (x y : ndarray) :
  ncols x = 0 ->
  euclidean_numba1 x y = inr (tabulate (nrows x) (nrows x) (sq_euclid x y)).
Proof.
  intros H. rewrite numba1_fill. apply fill_ok. intros i j _ _.
  unfold cell_numba1. rewrite H. simpl.
  rewrite (sq_euclid_no_features x y i j H). reflexivity.
Qed.

Lemma numba1_no_rows (x y : ndarray) :
  nrows x = 0 ->
  euclidean_numba1 x y = inr (tabulate (nrows x) (nrows x) (sq_euclid x y)).
Proof.
  intros H. rewrite numba1_fill. apply fill_ok. intros i j Hi. lia.
Qed.

(** Outside the cases above the very first missing read raises. *)
Lemma numba1_raises (x y : ndarray) :
  wf x -> wf y -> 0 < nrows x -> 0 < ncols x ->
  nrows y < nrows x \/ ncols y < ncols x ->
  euclidean_numba1 x y = inl IndexError.
Proof.
  intros Hx Hy Hn Hd Hlack.
  destruct (Nat.eq_dec (nrows y) 0) as [H0 | H0].
  - rewrite numba1_fill.
    apply (fill_fail _ _ (sq_euclid x y) IndexError 0); [exact Hn | intros j Hj; lia |].
    apply cell_numba1_no_row; try assumption. lia.
  - destruct (Nat.lt_ge_cases (ncols y) (ncols x)) as [Hc | Hc].
    + rewrite numba1_fill.
      apply (fill_fail _ _ (sq_euclid x y) IndexError 0); [exact Hn | intros j Hj; lia |].
      apply cell_numba1_no_col; try assumption. lia.
    + apply numba1_short; try assumption. destruct Hlack; lia.
Qed.

(** The undecorated [euclidean_loop0], whose indexing is checked: for
    well-formed arrays it returns a matrix exactly when [x] has no row, or
    no feature, or [y] has at least the rows and the features of [x]; in
    every other case it raises [IndexError]. *)
Theorem loop0_returns_iff (x y : ndarray) :
  wf x -> wf y ->
  ((exists out, euclidean_loop0 x y = inr out) <->
   nrows x = 0 \/ ncols x = 0 \/
   (nrows x <= nrows y /\ ncols x <= ncols y)) /\
  ((forall out, euclidean_loop0 x y <> inr out) ->
   euclidean_loop0 x y = inl IndexError).
Proof.
  intros Hx Hy. change (euclidean_loop0 x y) with (euclidean_numba1 x y).
  assert (Hdec : (nrows x = 0 \/ ncols x = 0 \/
                  (nrows x <= nrows y /\ ncols x <= ncols y)) \/
                 (0 < nrows x /\ 0 < ncols x /\
                  (nrows y < nrows x \/ ncols y < ncols x))) by lia.
  assert (Hret : nrows x = 0 \/ ncols x = 0 \/
                 (nrows x <= nrows y /\ ncols x <= ncols y) ->
                 exists out, euclidean_numba1 x y = inr out).
  { intros [H | [H | [Hr Hc]]]; eexists.
    - apply numba1_no_rows. exact H.
    - apply numba1_no_features. exact H.
    - apply numba1_ok; assumption. }
  split; [split |].
  - intros [out E]. destruct Hdec as [H | (Hn & Hd & Hlack)]; [exact H |].
    rewrite (numba1_raises x y Hx Hy Hn Hd Hlack) in E. discriminate E.
  - exact Hret.
  - intros Hno. destruct Hdec as [H | (Hn & Hd & Hlack)].
    + destruct (Hret H) as [out E]. exfalso. apply (Hno out E).
    + apply numba1_raises; assumption.
Qed.

Lemma loop0_returns_iff_witness :
  (exists out, euclidean_loop0 X_1x4 Y_1x5 = inr out) /\
  euclidean_loop0 Y_2x1 X_1x1 = inl IndexError.
Proof.
  split.
  - apply (proj1 (loop0_returns_iff X_1x4 Y_1x5 wf_X_1x4 wf_Y_1x5)).
    right. right. simpl. lia.
  - destruct (loop0_returns_iff Y_2x1 X_1x1) as [Hiff Hraise];
      [solve_wf | solve_wf |].
    apply Hraise. intros out E.
    assert (H : nrows Y_2x1 = 0 \/ ncols Y_2x1 = 0 \/
                (nrows Y_2x1 <= nrows X_1x1 /\ ncols Y_2x1 <= ncols X_1x1))
      by (apply (proj1 Hiff); exists out; exact E).
    simpl in H. lia.
Defined.

(** ** What [euclidean_numba1] reads of [y] *)

(** The result depends on the leading block of [y] only, its first
    [nrows x] rows and [ncols x] columns: two arrays that agree there, of
    whatever shapes beyond, give the same matrix. *)
Theorem numba1_leading_block (x y y' : ndarray) :
  wf x -> wf y -> wf y' ->
  nrows x <= nrows y -> ncols x <= ncols y ->
  nrows x <= nrows y' -> ncols x <= ncols y' ->
  (forall j k, j < nrows x -> k < ncols x -> get y j k = get y' j k) ->
  euclidean_numba1 x y = euclidean_numba1 x y' /\
  exists out, euclidean_numba1 x y = inr out.
Proof.
  intros Hx Hy Hy' Hr Hc Hr' Hc' Hsame.
  rewrite (numba1_ok x y Hx Hy Hr Hc), (numba1_ok x y' Hx Hy' Hr' Hc').
  split; [| eexists; reflexivity].
  f_equal. apply tabulate_ext. intros i j Hi Hj.
  unfold sq_euclid. f_equal. apply map_ext_in. intros k Hk. apply in_seq in Hk.
  rewrite Hsame by lia. reflexivity.
Qed.

Lemma numba1_leading_block_witness :
  euclidean_numba1 X_123 Y_2x3 = euclidean_numba1 X_123 Y_2x3' /\
  exists out, euclidean_numba1 X_123 Y_2x3 = inr out.
Proof.
  apply (numba1_leading_block X_123 Y_2x3 Y_2x3'); try solve_wf; try (simpl; lia).
  intros j k Hj Hk. simpl in Hj.
  destruct j as [| j]; [reflexivity | lia].
Defined.

(** ** Distance zero *)

Lemma sum_squares_zero {A : Type} (g : A -> R) (l : list A) :
  sum (map (fun a => (g a) ^ 2)%R l) = 0%R <-> forall a, In a l -> g a = 0%R.
Proof.
  unfold sum. induction l as [| a l IH]; cbn [map fold_right In].
  - split; [intros _ b [] | reflexivity].
  - pose proof (sum_squares_nonneg g l) as Hl. unfold sum in Hl.
    pose proof (pow2_ge_0 (g a)) as Ha.
    split.
    + intros H b [<- | Hb].
      * assert (E : ((g a) ^ 2)%R = 0%R) by lra.
        simpl in E. rewrite Rmult_1_r in E.
        apply Rmult_integral in E. destruct E; assumption.
      * apply (proj1 IH); [lra | exact Hb].
    + intros H. rewrite (proj2 IH) by (intros b Hb; apply H; right; exact Hb).
      rewrite (H a) by (left; reflexivity). ring.
Qed.

Lemma sq_euclid_zero (x y : ndarray) (i j : nat) :
  wf x -> wf y -> i < nrows x -> j < nrows y -> ncols x = ncols y ->
  (sq_euclid x y i j = 0%R <-> nth i (data x) [] = nth j (data y) []).
Proof.
  intros Hx Hy Hi Hj Hc.
  pose proof (wf_row_length x i Hx Hi) as Lx.
  pose proof (wf_row_length y j Hy Hj) as Ly.
  unfold sq_euclid.
  rewrite (sum_squares_zero (fun k => (get x i k - get y j k)%R)).
  split.
  - intros H. apply (nth_ext _ _ 0%R 0%R); [lia |].
    intros k Hk. specialize (H k). unfold get in H.
    assert (Hin : In k (seq 0 (ncols x))) by (apply in_seq; lia).
    specialize (H Hin). cbv beta in H. lra.
  - intros E k _. unfold get. rewrite E. lra.
Qed.

(** Two equal rows are at distance 0: for a valid pair with at least as
    many rows in [y], the entry (i, j) of the matrix [euclidean_numba1]
    returns is 0 whenever row i of [x] and row j of [y] are the same row. *)
Theorem numba1_same_row_zero (x y : ndarray) (i j : nat) :
  valid_pair x y -> nrows x <= nrows y -> i < nrows x -> j < nrows x ->
  getrow x i = getrow y j ->
  exists out, euclidean_numba1 x y = inr out /\ entry out i j = inr 0%R.
Proof.
  intros (Hx & Hy & Hc) Hr Hi Hj Hsame. eexists. split.
  - apply numba1_ok; try assumption. lia.
  - rewrite entry_tabulate by assumption.
    assert (Hj' : j < nrows y) by lia.
    rewrite (getrow_wf x i Hx Hi), (getrow_wf y j Hy Hj') in Hsame.
    injection Hsame as Hsame.
    rewrite (proj2 (sq_euclid_zero x y i j Hx Hy Hi Hj' Hc) Hsame).
    reflexivity.
Qed.

Lemma numba1_same_row_zero_witness :
  exists out, euclidean_numba1 X_123 Y_2x3 = inr out /\ entry out 0 0 = inr 0%R.
Proof.
  apply (numba1_same_row_zero X_123 Y_2x3 0 0).
  - solve_valid.
  - simpl. lia.
  - simpl. lia.
  - simpl. lia.
  - reflexivity.
Defined.

(** ** Row subtraction on arrays of different feature dimensions *)

Lemma subtract1_mismatch (u v : list R) :
  length u <> length v -> length u <> 1 -> length v <> 1 ->
  subtract1 u v = raise ShapeMismatch.
Proof.
  intros H Hu Hv. unfold subtract1, broadcast1, bdim.
  destruct (Nat.eqb_spec (length u) (length v)); [contradiction |].
  destruct (Nat.eqb_spec (length u) 1); [contradiction |].
  destruct (Nat.eqb_spec (length v) 1); [contradiction | reflexivity].
Qed.

Lemma subtract1_stretch_r (u v : list R) :
  length v = 1 ->
  subtract1 u v =
  ret (map (fun k => (nth k u 0 - nth 0 v 0)%R) (seq 0 (length u))).
Proof.
  intros H. unfold subtract1, broadcast1. rewrite H, bdim_1_r. simpl.
  unfold ret. f_equal. apply map_ext_in. intros k Hk. apply in_seq in Hk.
  rewrite bidx_lt by lia. reflexivity.
Qed.

Lemma subtract1_stretch_l (u v : list R) :
  length u = 1 ->
  subtract1 u v =
  ret (map (fun k => (nth 0 u 0 - nth k v 0)%R) (seq 0 (length v))).
Proof.
  intros H. unfold subtract1, broadcast1. rewrite H, bdim_1_l. simpl.
  unfold ret. f_equal. apply map_ext_in. intros k Hk. apply in_seq in Hk.
  rewrite (bidx_lt (length v)) by lia. reflexivity.
Qed.

(** The undecorated [euclidean_loop1], whose indexing is checked: the
    row [y[0]] is read before the subtraction, so with no row in [y] it
    raises [IndexError], whatever the dimensions; with a row in [y],
    feature dimensions that differ, neither of them 1, make the first
    subtraction raise [ShapeMismatch]. *)
Theorem loop1_mismatch (x y : ndarray) :
  wf x -> wf y -> 0 < nrows x ->
  (nrows y = 0 -> euclidean_loop1 x y = inl IndexError) /\
  (0 < nrows y -> ncols x <> ncols y -> ncols x <> 1 -> ncols y <> 1 ->
   euclidean_loop1 x y = inl ShapeMismatch).
Proof.
  intros Hx Hy Hn. change (euclidean_loop1 x y) with (euclidean_numba2 x y).
  split.
  - intros H0. rewrite numba2_fill.
    apply (fill_fail _ _ (sq_euclid x y) IndexError 0); [exact Hn | intros j Hj; lia |].
    apply cell_numba2_no_row; try assumption. lia.
  - intros Hm Hd Hd1 Hd2. rewrite numba2_fill.
    apply (fill_fail _ _ (sq_euclid x y) ShapeMismatch 0); [exact Hn | intros j Hj; lia |].
    unfold cell_numba2.
    rewrite (getrow_wf x 0 Hx Hn). simpl.
    rewrite (getrow_wf y 0 Hy Hm). simpl.
    rewrite subtract1_mismatch; [reflexivity | | |];
      rewrite ?(wf_row_length x 0 Hx Hn), ?(wf_row_length y 0 Hy Hm); assumption.
Qed.

Lemma loop1_mismatch_witness :
  euclidean_loop1 X_1x4 Y_0x2 = inl IndexError /\
  euclidean_loop1 X_1x4 Y_1x5 = inl ShapeMismatch.
Proof.
  split.
  - apply (proj1 (loop1_mismatch X_1x4 Y_0x2 wf_X_1x4 ltac:(solve_wf) ltac:(simpl; lia))).
    reflexivity.
  - apply (proj2 (loop1_mismatch X_1x4 Y_1x5 wf_X_1x4 wf_Y_1x5 ltac:(simpl; lia)));
      simpl; lia.
Defined.

(** A feature dimension of 1 on one side is no mismatch for
    [euclidean_numba2]: the single feature is stretched over the features
    of the other array, and a matrix is returned without error. *)
Theorem numba2_broadcasts (x y : ndarray) :
  wf x -> wf y -> nrows x <= nrows y ->
  (ncols y = 1 ->
   euclidean_numba2 x y =
   inr (tabulate (nrows x) (nrows x) (fun i j =>
          sum (map (fun k => ((get x i k - get y j 0) ^ 2)%R)
                   (seq 0 (ncols x)))))) /\
  (ncols x = 1 ->
   euclidean_numba2 x y =
   inr (tabulate (nrows x) (nrows x) (fun i j =>
          sum (map (fun k => ((get x i 0 - get y j k) ^ 2)%R)
                   (seq 0 (ncols y)))))).
Proof.
  intros Hx Hy Hr. split; intros H1; rewrite numba2_fill; apply fill_ok;
    intros i j Hi Hj; unfold cell_numba2;
    assert (Hj' : j < nrows y) by lia;
    rewrite (getrow_wf x i Hx Hi), (getrow_wf y j Hy Hj'); simpl;
    pose proof (wf_row_length x i Hx Hi) as Lx;
    pose proof (wf_row_length y j Hy Hj') as Ly.
  - rewrite subtract1_stretch_r by lia. simpl.
    unfold ret, square1, get. f_equal. rewrite map_map, Lx. reflexivity.
  - rewrite subtract1_stretch_l by lia. simpl.
    unfold ret, square1, get. f_equal. rewrite map_map, Ly. reflexivity.
Qed.

Lemma numba2_broadcasts_witness :
  euclidean_numba2 X_123 Y_2x1 =
  inr (tabulate (nrows X_123) (nrows X_123) (fun i j =>
         sum (map (fun k => ((get X_123 i k - get Y_2x1 j 0) ^ 2)%R)
                  (seq 0 (ncols X_123))))) /\
  euclidean_numba2 X_1x1 Y_1x5 =
  inr (tabulate (nrows X_1x1) (nrows X_1x1) (fun i j =>
         sum (map (fun k => ((get X_1x1 i 0 - get Y_1x5 j k) ^ 2)%R)
                  (seq 0 (ncols Y_1x5))))).
Proof.
  split.
  - apply (proj1 (numba2_broadcasts X_123 Y_2x1 ltac:(solve_wf) ltac:(solve_wf)
                    ltac:(simpl; lia))). reflexivity.
  - apply (proj2 (numba2_broadcasts X_1x1 Y_1x5 ltac:(solve_wf) wf_Y_1x5
                    ltac:(simpl; lia))). reflexivity.
Defined.

(** * The homework functions *)

(** ** Walking a list with [enumerate] *)

Lemma for_enumerate_for_from {St A : Type} (l : list A)
      (body : nat -> A -> St -> result St) (start : nat) (s : St) :
  for_enumerate start l body s =
  for_from start (length l)
    (fun k s => match nth_error l (k - start) with
                | Some a => body k a s
                | None => raise IndexError
                end) s.
Proof.
  revert start s. induction l as [| a t IH]; intros start s.
  - reflexivity.
  - simpl. rewrite Nat.sub_diag. simpl.
    destruct (body start a s) as [e | s1]; simpl; [reflexivity |].
    rewrite IH. apply for_from_ext. intros k u Hk.
    replace (k - start) with (Datatypes.S (k - Datatypes.S start)) by lia.
    reflexivity.
Qed.

Lemma nth_error_row (a : ndarray) (i : nat) :
  wf a -> i < nrows a -> nth_error (data a) (i - 0) = Some (nth i (data a) []).
Proof.
  intros [Hl _] Hi. rewrite Nat.sub_0_r. apply nth_error_nth'. lia.
Qed.

(** ** The cell of [euclidean_loop2] and [euclidean_loop3] *)

Lemma dot1_self (d : list R) :
  dot1 d d = ret (sum (map (fun k => (nth k d 0 * nth k d 0)%R) (seq 0 (length d)))).
Proof. unfold dot1. rewrite Nat.eqb_refl. reflexivity. Qed.

Lemma dot_of_difference (x y : ndarray) (i j : nat) :
  wf x -> wf y -> i < nrows x -> j < nrows y -> ncols x = ncols y ->
  (d <- subtract1 (nth i (data x) []) (nth j (data y) []) ;; dot1 d d) =
  ret (sq_euclid x y i j).
Proof.
  intros Hx Hy Hi Hj Hc.
  pose proof (wf_row_length x i Hx Hi) as Lx.
  pose proof (wf_row_length y j Hy Hj) as Ly.
  rewrite subtract1_same by lia. simpl. rewrite dot1_self.
  unfold ret, sq_euclid, get. f_equal. f_equal.
  rewrite length_map, length_seq, Lx.
  apply map_ext_in. intros k Hk. apply in_seq in Hk.
  rewrite (nth_map_seq (fun k => (nth k (nth i (data x) []) 0
                                  - nth k (nth j (data y) []) 0)%R)) by lia.
  simpl. ring.
Qed.

(** ** The nest of [euclidean_loop2] *)

Lemma stored_zeros (n m : nat) (f : nat -> nat -> R) : stored n m f 0 0 (zeros n n).
Proof.
  split; [apply wf_zeros |]. split; [reflexivity |]. split; [reflexivity |].
  intros a b Ha Hb. rewrite zeros_tabulate, get_tabulate by assumption.
  rewrite Bool.andb_false_r. simpl. rewrite Bool.andb_false_r. reflexivity.
Qed.

Lemma stored_next_row (n m : nat) (f : nat -> nat -> R) (i : nat) (dm : ndarray) :
  stored n m f i m dm -> stored n m f (Datatypes.S i) 0 dm.
Proof.
  intros (Hwf & Hr & Hc & Hget). split; [exact Hwf |].
  split; [exact Hr |]. split; [exact Hc |].
  intros a b Ha Hb. rewrite (Hget a b Ha Hb).
  destruct (Nat.ltb_spec b m); simpl; [| reflexivity].
  destruct (Nat.ltb_spec a i); destruct (Nat.eqb_spec a i);
    destruct (Nat.ltb_spec a (Datatypes.S i)); simpl;
    try reflexivity; try lia;
    rewrite ?Bool.andb_false_r; reflexivity.
Qed.

Lemma stored_store (n m : nat) (f : nat -> nat -> R) (i j : nat) (dm : ndarray) :
  i < n -> j < m -> m <= n -> stored n m f i j dm ->
  exists dm', setitem dm i j (f i j) = inr dm' /\ stored n m f i (Datatypes.S j) dm'.
Proof.
  intros Hi Hj Hm (Hwf & Hr & Hc & Hget).
  destruct (setitem_wf dm i j (f i j) Hwf) as (dm' & E & Hwf' & Hr' & Hc' & Hget');
    [lia | lia |].
  exists dm'. split; [exact E |].
  split; [exact Hwf' |]. split; [lia |]. split; [lia |].
  intros a b Ha Hb. rewrite Hget', (Hget a b Ha Hb).
  destruct (Nat.eqb_spec a i) as [-> | Hai]; simpl.
  - destruct (Nat.eqb_spec b j) as [-> | Hbj]; simpl.
    + destruct (Nat.ltb_spec j m); [| lia].
      destruct (Nat.ltb_spec j (Datatypes.S j)); [| lia].
      simpl. rewrite Bool.orb_true_r. reflexivity.
    + destruct (Nat.ltb_spec b j); destruct (Nat.ltb_spec b (Datatypes.S j));
        try lia; reflexivity.
  - reflexivity.
Qed.

Lemma stored_table (x y : ndarray) (m : nat) (dm : ndarray) :
  stored (nrows x) m (sq_euclid x y) (nrows x) 0 dm -> dm = partial_table x y m.
Proof.
  intros (Hwf & Hr & Hc & Hget). unfold partial_table.
  rewrite <- Hr at 1. rewrite <- Hc at 1.
  apply (wf_eq_table dm _ Hwf). intros i j Hi Hj.
  rewrite Hget by lia.
  destruct (Nat.ltb_spec j m); simpl; [| reflexivity].
  destruct (Nat.ltb_spec i (nrows x)); [reflexivity | lia].
Qed.

(** A store beyond the last column of the matrix. *)
Lemma setitem_no_column (dm : ndarray) (i j : nat) (v : R) :
  wf dm -> i < nrows dm -> ncols dm <= j -> setitem dm i j v = inl IndexError.
Proof.
  intros Hwf Hi Hj. unfold setitem. rewrite (getrow_wf dm i Hwf Hi). simpl.
  rewrite (wf_row_length dm i Hwf Hi).
  destruct (Nat.ltb_spec j (ncols dm)); [lia | reflexivity].
Qed.

Lemma bind_assoc {A B C : Type} (m : result A) (f : A -> result B) (g : B -> result C) :
  (b <- (a <- m ;; f a) ;; g b) = (a <- m ;; b <- f a ;; g b).
Proof. destruct m; reflexivity. Qed.

Lemma loop2_body (x y : ndarray) (i j : nat) (dm : ndarray) :
  wf x -> wf y -> i < nrows x -> j < nrows y -> ncols x = ncols y ->
  match nth_error (data y) (j - 0) with
  | Some yj =>
      diff <- subtract1 (nth i (data x) []) yj ;;
      d <- dot1 diff diff ;;
      setitem dm i j d
  | None => raise IndexError
  end = setitem dm i j (sq_euclid x y i j).
Proof.
  intros Hx Hy Hi Hj Hc. rewrite (nth_error_row y j Hy Hj).
  rewrite <- (bind_assoc _ (fun diff => dot1 diff diff) (fun d => setitem dm i j d)).
  rewrite (dot_of_difference x y i j Hx Hy Hi Hj Hc). reflexivity.
Qed.

(** With no more rows in [y] than in [x], every store of
    [euclidean_loop2] is inside the matrix. *)
Lemma loop2_ok (x y : ndarray) :
  valid_pair x y -> nrows y <= nrows x ->
  euclidean_loop2 x y = inr (partial_table x y (nrows y)).
Proof.
  intros (Hx & Hy & Hc) Hr. unfold euclidean_loop2.
  rewrite for_enumerate_for_from. rewrite (proj1 Hx).
  destruct (for_from_inv
    (fun k s => match nth_error (data x) (k - 0) with
                | Some xi =>
                    for_enumerate 0 (data y) (fun j yj dm =>
                      diff <- subtract1 xi yj ;;
                      d <- dot1 diff diff ;;
                      setitem dm k j d) s
                | None => raise IndexError
                end)
    (fun i dm => stored (nrows x) (nrows y) (sq_euclid x y) i 0 dm)
    (nrows x) 0 (zeros (nrows x) (nrows x)) (stored_zeros _ _ _)) as [out [E P]].
  - intros i dm Hi Pi. rewrite (nth_error_row x i Hx) by lia.
    rewrite for_enumerate_for_from. rewrite (proj1 Hy).
    destruct (for_from_inv
      (fun j s => match nth_error (data y) (j - 0) with
                  | Some yj =>
                      diff <- subtract1 (nth i (data x) []) yj ;;
                      d <- dot1 diff diff ;;
                      setitem s i j d
                  | None => raise IndexError
                  end)
      (fun j dm => stored (nrows x) (nrows y) (sq_euclid x y) i j dm)
      (nrows y) 0 dm Pi) as [dm' [E' P']].
    + intros j u Hj Pj. rewrite loop2_body by (assumption || lia).
      apply stored_store; [lia | lia | exact Hr | exact Pj].
    + exists dm'. split; [exact E' |]. apply stored_next_row. exact P'.
  - rewrite E. f_equal. apply stored_table. exact P.
Qed.

(** With more rows in [y], the store into column [nrows x] of the first
    row is outside the matrix. *)
Lemma loop2_overflow (x y : ndarray) :
  valid_pair x y -> 0 < nrows x -> nrows x < nrows y ->
  euclidean_loop2 x y = inl IndexError.
Proof.
  intros (Hx & Hy & Hc) Hn Hr. unfold euclidean_loop2.
  rewrite for_enumerate_for_from. rewrite (proj1 Hx).
  apply (for_from_fail _
           (fun i dm => stored (nrows x) (nrows x) (sq_euclid x y) 0 0 dm)
           IndexError (nrows x) 0 0).
  - lia.
  - apply stored_zeros.
  - intros k t Hk. lia.
  - intros dm Pdm. rewrite (nth_error_row x 0 Hx Hn).
    rewrite for_enumerate_for_from. rewrite (proj1 Hy).
    apply (for_from_fail _
             (fun j dm => stored (nrows x) (nrows x) (sq_euclid x y) 0 j dm)
             IndexError (nrows y) 0 (nrows x)).
    + lia.
    + exact Pdm.
    + intros j u Hj Pj. rewrite loop2_body by (assumption || lia).
      apply stored_store; [lia | lia | lia | exact Pj].
    + intros u (Hwf & Hru & Hcu & _). rewrite loop2_body by (assumption || lia).
      apply setitem_no_column; [exact Hwf | lia | lia].
Qed.

Lemma loop2_no_rows (x y : ndarray) :
  wf x -> nrows x = 0 -> euclidean_loop2 x y = inr (zeros 0 0).
Proof.
  intros [Hl _] H0. unfold euclidean_loop2. rewrite H0 in *.
  destruct (data x); [reflexivity | discriminate Hl].
Qed.

(** For a valid pair in which [y] has no more rows than [x],
    [euclidean_loop2] returns a matrix sized by [x]: the columns below
    rows(Y) hold the squared distances, the columns from rows(Y) on keep
    the zeros of [np.zeros]. *)
Theorem loop2_fills_columns (x y : ndarray) :
  valid_pair x y -> nrows y <= nrows x ->
  exists out, euclidean_loop2 x y = inr out /\
    shape out = (nrows x, nrows x) /\
    forall i j, i < nrows x -> j < nrows x ->
      entry out i j =
      inr (if j <? nrows y then sq_euclid x y i j else 0%R).
Proof.
  intros Hv Hr. exists (partial_table x y (nrows y)).
  split; [apply loop2_ok; assumption |]. split; [reflexivity |].
  intros i j Hi Hj. unfold partial_table. rewrite entry_tabulate by assumption.
  reflexivity.
Qed.

Lemma loop2_fills_columns_witness :
  exists out, euclidean_loop2 X_pts Y_1x2 = inr out /\
    shape out = (nrows X_pts, nrows X_pts) /\
    forall i j, i < nrows X_pts -> j < nrows X_pts ->
      entry out i j =
      inr (if j <? nrows Y_1x2 then sq_euclid X_pts Y_1x2 i j else 0%R).
Proof.
  apply (loop2_fills_columns X_pts Y_1x2).
  - solve_valid.
  - simpl. lia.
Defined.

(** With more rows in [y] than in [x], [euclidean_loop2] stores outside
    the matrix and raises [IndexError], unless [x] has no row at all, in
    which case the empty matrix is returned. *)
Theorem loop2_more_rows (x y : ndarray) :
  valid_pair x y -> nrows x < nrows y ->
  (0 < nrows x -> euclidean_loop2 x y = inl IndexError) /\
  (nrows x = 0 -> euclidean_loop2 x y = inr (zeros 0 0)).
Proof.
  intros Hv Hr. split.
  - intros Hn. apply loop2_overflow; assumption.
  - intros H0. apply loop2_no_rows; [apply Hv | exact H0].
Qed.

Lemma loop2_more_rows_witness :
  euclidean_loop2 Y_1x2 X_pts = inl IndexError /\
  euclidean_loop2 X_0x5 Y_3x5 = inr (zeros 0 0).
Proof.
  split.
  - apply (proj1 (loop2_more_rows Y_1x2 X_pts ltac:(solve_valid) ltac:(simpl; lia))).
    simpl. lia.
  - apply (proj2 (loop2_more_rows X_0x5 Y_3x5 valid_0x5_3x5 ltac:(simpl; lia))).
    reflexivity.
Defined.

(** ** [euclidean_loop3] *)

Lemma comprehension_seq {A B : Type} (f : A -> result B) (h : nat -> A)
      (g : nat -> B) (n start : nat) :
  (forall i, start <= i < start + n -> f (h i) = ret (g i)) ->
  comprehension f (map h (seq start n)) = ret (map g (seq start n)).
Proof.
  revert start. induction n as [| n IH]; intros start H.
  - reflexivity.
  - simpl. rewrite H by lia. simpl. rewrite IH by (intros i Hi; apply H; lia).
    reflexivity.
Qed.

Lemma comprehension_never {A B : Type} (f : A -> result B) (e : error) (l : list A) :
  (forall a, f a <> inl e) -> comprehension f l <> inl e.
Proof.
  intros Hf. induction l as [| a t IH]; simpl.
  - discriminate.
  - pose proof (Hf a) as Ha. destruct (f a) as [e' | b]; simpl.
    + intros H. apply Ha. injection H as ->. reflexivity.
    + destruct (comprehension f t) as [e' | bs]; simpl.
      * intros H. apply IH. injection H as ->. reflexivity.
      * discriminate.
Qed.

Lemma rows_as_map (a : ndarray) :
  wf a -> data a = map (fun i => nth i (data a) []) (seq 0 (nrows a)).
Proof.
  intros [Hl _]. apply (nth_ext _ _ [] []).
  - rewrite length_map, length_seq. exact Hl.
  - intros i Hi. rewrite nth_map_seq by lia. reflexivity.
Qed.

Lemma loop3_cell (x y : ndarray) (i j : nat) :
  wf x -> wf y -> i < nrows x -> j < nrows y -> ncols x = ncols y ->
  (d1 <- subtract1 (nth i (data x) []) (nth j (data y) []) ;;
   d2 <- subtract1 (nth i (data x) []) (nth j (data y) []) ;;
   dot1 d1 d2) = ret (sq_euclid x y i j).
Proof.
  intros Hx Hy Hi Hj Hc.
  pose proof (dot_of_difference x y i j Hx Hy Hi Hj Hc) as H.
  pose proof (wf_row_length x i Hx Hi) as Lx.
  pose proof (wf_row_length y j Hy Hj) as Ly.
  rewrite subtract1_same in * by lia. simpl in *. exact H.
Qed.

(** The rows [euclidean_loop3] collects: one per row of [y]. *)
Lemma loop3_rows (x y : ndarray) :
  valid_pair x y ->
  euclidean_loop3 x y =
  ret (np_array (map (fun j => map (fun i => sq_euclid x y i j) (seq 0 (nrows x)))
                     (seq 0 (nrows y)))).
Proof.
  intros (Hx & Hy & Hc). unfold euclidean_loop3.
  rewrite (rows_as_map y Hy) at 1.
  rewrite (comprehension_seq _ _
             (fun j => map (fun i => sq_euclid x y i j) (seq 0 (nrows x)))).
  - reflexivity.
  - intros j Hj. rewrite (rows_as_map x Hx) at 1.
    apply comprehension_seq. intros i Hi. apply loop3_cell; (assumption || lia).
Qed.

Lemma loop3_ok (x y : ndarray) :
  valid_pair x y -> 0 < nrows y ->
  euclidean_loop3 x y =
  inr (Array2 (tabulate (nrows y) (nrows x) (fun j i => sq_euclid x y i j))).
Proof.
  intros Hv Hm. rewrite (loop3_rows x y Hv). unfold tabulate.
  destruct (nrows y) as [| m] eqn:Em; [lia |].
  unfold np_array. cbn [seq map]. unfold ret. do 2 f_equal.
  f_equal.
  - cbn [length]. rewrite length_map, length_seq. reflexivity.
  - rewrite length_map, length_seq. reflexivity.
Qed.

Lemma transpose_tabulate (n m : nat) (f : nat -> nat -> R) :
  transpose (tabulate n m f) = tabulate m n (fun j i => f i j).
Proof.
  unfold transpose. simpl. apply tabulate_ext. intros j i Hj Hi.
  apply get_tabulate; assumption.
Qed.

(** For a valid pair with at least one row in [y], [euclidean_loop3]
    returns a two-dimensional array laid out the other way round: its
    shape is (rows(Y), rows(X)) and its entry (j, i) is the squared distance
    of row i of [x] and row j of [y]. *)
Theorem loop3_is_transposed (x y : ndarray) :
  valid_pair x y -> 0 < nrows y ->
  exists a, euclidean_loop3 x y = inr (Array2 a) /\
    shape a = (nrows y, nrows x) /\
    forall i j, i < nrows x -> j < nrows y ->
      entry a j i = inr (sq_euclid x y i j).
Proof.
  intros Hv Hm. eexists.
  split; [apply loop3_ok; assumption |]. split; [reflexivity |].
  intros i j Hi Hj. rewrite entry_tabulate by assumption. reflexivity.
Qed.

Lemma loop3_is_transposed_witness :
  exists a, euclidean_loop3 X_pts Y_1x2 = inr (Array2 a) /\
    shape a = (nrows Y_1x2, nrows X_pts) /\
    forall i j, i < nrows X_pts -> j < nrows Y_1x2 ->
      entry a j i = inr (sq_euclid X_pts Y_1x2 i j).
Proof.
  apply (loop3_is_transposed X_pts Y_1x2).
  - solve_valid.
  - simpl. lia.
Defined.

Lemma loop3_cell_never (xi yj : list R) :
  (d1 <- subtract1 xi yj ;; d2 <- subtract1 xi yj ;; dot1 d1 d2) <> inl IndexError.
Proof.
  unfold subtract1, broadcast1, bdim, dot1.
  destruct (length xi =? length yj); simpl.
  - destruct (_ =? _); discriminate.
  - destruct (length xi =? 1); simpl.
    + destruct (_ =? _); discriminate.
    + destruct (length yj =? 1); simpl; [| discriminate].
      destruct (_ =? _); discriminate.
Qed.

(** [euclidean_loop3] indexes nothing: it never raises [IndexError],
    whatever the shapes.  With no row in [y] it returns the one-dimensional
    empty array, of shape (0,), and not a matrix, whatever [x] is. *)
Theorem loop3_edges (x y : ndarray) :
  euclidean_loop3 x y <> inl IndexError /\
  (wf y -> nrows y = 0 -> euclidean_loop3 x y = inr (Array1 [])).
Proof.
  split.
  - unfold euclidean_loop3.
    pose proof (comprehension_never
      (fun yj => comprehension (fun xi =>
         d1 <- subtract1 xi yj ;; d2 <- subtract1 xi yj ;; dot1 d1 d2) (data x))
      IndexError (data y)) as H.
    destruct (comprehension _ (data y)) as [e | l]; simpl; [| discriminate].
    intros E. apply H.
    + intros yj. apply comprehension_never. intros xi. apply loop3_cell_never.
    + injection E as ->. reflexivity.
  - intros [Hl _] H0. unfold euclidean_loop3. rewrite H0 in Hl.
    destruct (data y); [reflexivity | discriminate Hl].
Qed.

Lemma loop3_edges_witness :
  euclidean_loop3 X_pts Y_0x2 <> inl IndexError /\
  euclidean_loop3 X_pts Y_0x2 = inr (Array1 []).
Proof.
  split.
  - apply (proj1 (loop3_edges X_pts Y_0x2)).
  - apply (proj2 (loop3_edges X_pts Y_0x2)); [solve_wf | reflexivity].
Defined.

(** ** [euclidean_loop3] on one array *)

(** On one array with at least one row against itself, the way the
    notebook calls its functions, what [euclidean_loop3] returns is a
    square matrix, symmetric and with a zero diagonal: its transposed
    layout does not show. *)
Theorem loop3_self_symmetric (x : ndarray) :
  wf x -> 0 < nrows x ->
  exists a, euclidean_loop3 x x = inr (Array2 a) /\
    shape a = (nrows x, nrows x) /\
    (forall i, i < nrows x -> entry a i i = inr 0%R) /\
    (forall i j, i < nrows x -> j < nrows x -> entry a i j = entry a j i).
Proof.
  intros Hx Hn. eexists.
  split; [apply loop3_ok; [split; [exact Hx | split; [exact Hx | reflexivity]] | exact Hn] |].
  split; [reflexivity |]. split.
  - intros i Hi. rewrite entry_tabulate by assumption.
    rewrite sq_euclid_self. reflexivity.
  - intros i j Hi Hj. rewrite !entry_tabulate by assumption.
    rewrite (sq_euclid_swap x x i j eq_refl). reflexivity.
Qed.

Lemma loop3_self_symmetric_witness :
  exists a, euclidean_loop3 X_pts X_pts = inr (Array2 a) /\
    shape a = (nrows X_pts, nrows X_pts) /\
    (forall i, i < nrows X_pts -> entry a i i = inr 0%R) /\
    (forall i j, i < nrows X_pts -> j < nrows X_pts ->
                 entry a i j = entry a j i).
Proof.
  apply (loop3_self_symmetric X_pts).
  - exact wf_X_pts.
  - simpl. lia.
Defined.

(** ** The check of the notebook *)

Lemma fold_left_Rmax_zeros (l : list R) :
  (forall e, In e l -> e = 0%R) -> fold_left Rmax l 0%R = 0%R.
Proof.
  induction l as [| a t IH]; intros H; simpl.
  - reflexivity.
  - rewrite (H a) by (left; reflexivity).
    rewrite Rmax_left by lra. apply IH. intros e He. apply H. right. exact He.
Qed.

Lemma in_zeros (n m : nat) (e : R) : In e (concat (data (zeros n m))) -> e = 0%R.
Proof.
  intros H. apply in_concat in H. destruct H as [r [Hr He]].
  simpl in Hr. apply repeat_spec in Hr. subst r.
  apply repeat_spec in He. exact He.
Qed.

Lemma amax_zeros (n : nat) :
  amax (zeros n n) = match n with O => inl ZeroSize | _ => inr 0%R end.
Proof.
  unfold amax. pose proof (in_zeros n n) as H.
  destruct n as [| n]; [reflexivity |].
  destruct (concat (data (zeros (Datatypes.S n) (Datatypes.S n)))) as [| h t] eqn:E.
  - simpl in E. discriminate E.
  - f_equal. rewrite (H h) by (left; reflexivity).
    apply fold_left_Rmax_zeros. intros e He. apply H. right. exact He.
Qed.

Lemma abs_difference_self (n : nat) (f : nat -> nat -> R) :
  (d <- subtract (tabulate n n f) (tabulate n n f) ;; ret (np_abs d)) =
  ret (zeros n n).
Proof.
  rewrite subtract_tabulate. simpl. rewrite np_abs_tabulate, zeros_tabulate.
  unfold ret. f_equal. apply tabulate_ext. intros i j _ _.
  rewrite Rminus_diag. apply Rabs_R0.
Qed.

(** The cell that compares the functions: for every well-formed array
    with at least one row the two matrices have one shape, the subtraction
    and [max] go through and a number is printed; for an array without rows
    the matrices are empty and [max] raises. *)
Theorem check_cell (a : ndarray) :
  wf a ->
  (0 < nrows a ->
   (exists v, max_abs_difference euclidean_numpy euclidean_numba1 a = inr v) /\
   (exists v, max_abs_difference euclidean_numpy euclidean_numba2 a = inr v)) /\
  (nrows a = 0 ->
   max_abs_difference euclidean_numpy euclidean_numba1 a = inl ZeroSize /\
   max_abs_difference euclidean_numpy euclidean_numba2 a = inl ZeroSize).
Proof.
  intros Ha.
  assert (H : max_abs_difference euclidean_numpy euclidean_numba1 a
              = amax (zeros (nrows a) (nrows a)) /\
              max_abs_difference euclidean_numpy euclidean_numba2 a
              = amax (zeros (nrows a) (nrows a))).
  { unfold max_abs_difference.
    rewrite (numpy_ok a a eq_refl).
    rewrite (numba1_ok a a Ha Ha (le_n _) (le_n _)).
    rewrite (numba2_ok a a Ha Ha (le_n _) eq_refl).
    cbn [bind]. rewrite abs_difference_self. split; reflexivity. }
  destruct H as [H1 H2]. rewrite H1, H2, amax_zeros.
  split; intros Hn.
  - destruct (nrows a); [lia | split; eexists; reflexivity].
  - rewrite Hn. split; reflexivity.
Qed.

Lemma check_cell_witness :
  ((exists v, max_abs_difference euclidean_numpy euclidean_numba1 X_pts = inr v) /\
   (exists v, max_abs_difference euclidean_numpy euclidean_numba2 X_pts = inr v)) /\
  (max_abs_difference euclidean_numpy euclidean_numba1 X_0x5 = inl ZeroSize /\
   max_abs_difference euclidean_numpy euclidean_numba2 X_0x5 = inl ZeroSize).
Proof.
  split.
  - apply (proj1 (check_cell X_pts wf_X_pts)). simpl. lia.
  - apply (proj2 (check_cell X_0x5 ltac:(solve_wf))). reflexivity.
Defined.

